(** * Role lobby of app.py: connection registry and role locks

    A shallow embedding of the Socket.IO handlers of [app.py]
    ([handle_connect], [handle_disconnect], [handle_choose_role],
    [handle_release_role]) and of their helpers, followed by the
    properties of the lobby stated in the specification.

    The two module-level dicts [CONNECTED] and [ROLE_OWNER] form the state.
    A handler is a computation that threads this state, appends to the list
    of emitted Socket.IO messages, and may stop on a Python exception; what
    was written before the exception stays written, as it does in the
    interpreter. *)

From Stdlib Require Import ZArith.
From stdpp Require Import gmap strings list fin_maps.

Open Scope string_scope.

(** ** Python values

    The argument [data] of a handler is whatever the client sent, decoded
    from JSON: null, a boolean, a number, a string, an array or an object.
    Numbers are integers here; a float behaves like a non-dict in every
    place the handlers look at. *)

#[warnings="-register-all"]
Inductive pyval : Type :=
| PyNone
| PyBool (b : bool)
| PyInt (z : Z)
| PyStr (s : string)
| PyList (l : list pyval)
| PyDict (d : list (string * pyval)).

(** Truth value of an object, as tested by [or], [and] and [if]. *)
Definition truthy (v : pyval) : bool :=
  match v with
  | PyNone => false
  | PyBool b => b
  | PyInt z => negb (z =? 0)%Z
  | PyStr s => negb (String.eqb s "")
  | PyList l => match l with [] => false | _ => true end
  | PyDict d => match d with [] => false | _ => true end
  end.

Inductive exn : Type := AttributeError | KeyError.

(** [d.get(key)] on the items of a dict: [None] when the key is missing. *)
Fixpoint dict_get (d : list (string * pyval)) (key : string) : pyval :=
  match d with
  | [] => PyNone
  | (k, v) :: d' => if String.eqb k key then v else dict_get d' key
  end.

(** [x or {}] *)
Definition or_empty_dict (x : pyval) : pyval :=
  if truthy x then x else PyDict [].

(** [v.get(key)]: only a dict has the method. *)
Definition py_get (v : pyval) (key : string) : exn + pyval :=
  match v with
  | PyDict d => inr (dict_get d key)
  | _ => inl AttributeError
  end.

(** ** The lobby state *)

(** A socket id, [request.sid]. *)
Abbreviation sid := string (only parsing).

(** The two keys of [ROLE_OWNER]; the literals of the tuple
    [("hacker", "defender")]. *)
Inductive RoleKind : Type := hacker | defender.

Global Instance RoleKind_eq_dec : EqDecision RoleKind.
Proof. solve_decision. Defined.

Definition role_name (r : RoleKind) : string :=
  match r with hacker => "hacker" | defender => "defender" end.

(** [v in ("hacker", "defender")], returning the key that matched. *)
Definition in_roles (v : pyval) : option RoleKind :=
  match v with
  | PyStr s =>
      if String.eqb s "hacker" then Some hacker
      else if String.eqb s "defender" then Some defender
      else None
  | _ => None
  end.

(** A value of [CONNECTED]: the dict [{"role": None}] and its later
    updates. *)
Record Connection : Type := { role : option RoleKind }.

(** [ROLE_OWNER = {"hacker": None, "defender": None}]. No handler adds or
    removes a key: every write is to a key taken from the dict itself or
    checked against the two literals first. *)
Record Owners : Type := { owner_hacker : option sid; owner_defender : option sid }.

Definition owner_of (o : Owners) (r : RoleKind) : option sid :=
  match r with hacker => owner_hacker o | defender => owner_defender o end.

Definition set_owner (o : Owners) (r : RoleKind) (v : option sid) : Owners :=
  match r with
  | hacker => {| owner_hacker := v; owner_defender := owner_defender o |}
  | defender => {| owner_hacker := owner_hacker o; owner_defender := v |}
  end.

(** [ROLE_OWNER.items()], in insertion order. *)
Definition items (o : Owners) : list (RoleKind * option sid) :=
  [(hacker, owner_hacker o); (defender, owner_defender o)].

Record World : Type := {
  CONNECTED : gmap string Connection;
  ROLE_OWNER : Owners
}.

Definition MAX_PLAYERS : nat := 2.

Definition initial : World :=
  {| CONNECTED := ∅; ROLE_OWNER := {| owner_hacker := None; owner_defender := None |} |}.

(** ** Messages *)

Inductive ErrorTag : Type :=
| waiting_for_players
| invalid_role
| role_taken
| already_owns_other_role.

Inductive Message : Type :=
| player_count (count max : nat)
| roles_update (hacker_taken defender_taken : bool)
| roles_ready
| choose_role_success (r : RoleKind)
| choose_role_failed (error : ErrorTag)
| role_released (r : RoleKind).

(** [emit(...)] inside a handler answers the client whose event is being
    handled; [socketio.emit(...)] goes to every client. *)
Inductive Event : Type :=
| ToRequester (to : sid) (m : Message)
| ToAll (m : Message).

(** ** Handler computations *)

Inductive Result (A : Type) : Type :=
| Returned (a : A)
| Raised (e : exn).
Arguments Returned {A} a.
Arguments Raised {A} e.

Record Run (A : Type) : Type := mkRun {
  result : Result A;
  world : World;
  sent : list Event
}.
Arguments mkRun {A} _ _ _.
Arguments result {A} _.
Arguments world {A} _.
Arguments sent {A} _.

Definition M (A : Type) : Type := World → Run A.

Definition ret {A} (a : A) : M A := λ w, mkRun (Returned a) w [].

(** Sequencing: the second statement runs in the state the first one left,
    and not at all when the first one raised. *)
Definition bind {A B} (k : A → M B) (m : M A) : M B := λ w,
  let r := m w in
  match result r with
  | Returned a =>
      let r' := k a (world r) in
      mkRun (result r') (world r') (sent r ++ sent r')
  | Raised e => mkRun (Raised e) (world r) (sent r)
  end.

Global Instance M_ret : MRet M := @ret.
Global Instance M_bind : MBind M := @bind.

Definition raise {A} (e : exn) : M A := λ w, mkRun (Raised e) w [].
Definition read : M World := λ w, mkRun (Returned w) w [].
Definition write (w : World) : M unit := λ _, mkRun (Returned tt) w [].
Definition send (e : Event) : M unit := λ w, mkRun (Returned tt) w [e].

Definition lift {A} (x : exn + A) : M A :=
  match x with inl e => raise e | inr a => ret a end.

(** [for x in xs: body(x)] *)
Fixpoint for_each {A} (xs : list A) (body : A → M unit) : M unit :=
  match xs with
  | [] => ret tt
  | x :: xs' => body x ;; for_each xs' body
  end.

(** [owner == sid] for a value of [ROLE_OWNER]. *)
Definition owner_is (o : option sid) (s : sid) : bool := bool_decide (o = Some s).

(** Truth value of a value of [ROLE_OWNER]: [None] and the empty string
    are false. *)
Definition owner_truthy (o : option sid) : bool :=
  match o with
  | None => false
  | Some s => negb (String.eqb s "")
  end.

(** *** Helper broadcasts *)

Definition broadcast_player_count : M unit :=
  w ← read;
  let count := size (CONNECTED w) in
  send (ToAll (player_count count MAX_PLAYERS)).

(** The dict [owners] built by [broadcast_roles]. *)
Definition owners (w : World) : bool * bool :=
  (owner_truthy (owner_hacker (ROLE_OWNER w)),
   owner_truthy (owner_defender (ROLE_OWNER w))).

Definition broadcast_roles : M unit :=
  w ← read;
  send (ToAll (roles_update (fst (owners w)) (snd (owners w)))).

Definition all_roles_taken (w : World) : bool :=
  bool_decide (owner_hacker (ROLE_OWNER w) ≠ None)
  && bool_decide (owner_defender (ROLE_OWNER w) ≠ None).

(** *** Writes to the two dicts *)

(** [ROLE_OWNER[r] = v] *)
Definition assign_owner (r : RoleKind) (v : option sid) : M unit :=
  w ← read;
  write {| CONNECTED := CONNECTED w; ROLE_OWNER := set_owner (ROLE_OWNER w) r v |}.

(** [CONNECTED[s]["role"] = v]: the subscript [CONNECTED[s]] raises
    [KeyError] when [s] is not a key. *)
Definition assign_connection_role (s : sid) (v : option RoleKind) : M unit :=
  w ← read;
  match CONNECTED w !! s with
  | None => raise KeyError
  | Some _ =>
      write {| CONNECTED := <[s := {| role := v |}]> (CONNECTED w);
               ROLE_OWNER := ROLE_OWNER w |}
  end.

(** *** Socket.IO event handlers *)

Definition handle_connect (s : sid) : M unit :=
  w ← read;
  write {| CONNECTED := <[s := {| role := None |}]> (CONNECTED w);
           ROLE_OWNER := ROLE_OWNER w |} ;;
  broadcast_player_count ;;
  broadcast_roles.

(** The loop assigns only to the key it is visiting, so the pairs of
    [items()] are those of the dict as it was when the loop started. *)
Definition handle_disconnect (s : sid) : M unit :=
  w ← read;
  for_each (items (ROLE_OWNER w))
    (λ '(r, owner), if owner_is owner s then assign_owner r None else ret tt) ;;
  w ← read;
  write {| CONNECTED := delete s (CONNECTED w); ROLE_OWNER := ROLE_OWNER w |} ;;
  broadcast_player_count ;;
  broadcast_roles.

(** The loop of [handle_choose_role] that looks for a role other than
    [desired] owned by [s]; it stops at the first one. The result is a key
    of [ROLE_OWNER], a non-empty string, so [if other_role:] asks whether
    one was found. *)
Definition find_other_role (o : Owners) (s : sid) (desired : RoleKind)
  : option RoleKind :=
  fst <$> List.find
    (λ '(r, owner), owner_is owner s && bool_decide (r ≠ desired)) (items o).

Definition handle_choose_role (s : sid) (data : pyval) : M unit :=
  desired ← lift (py_get (or_empty_dict data) "role");
  w ← read;
  let count := size (CONNECTED w) in
  if bool_decide (count < MAX_PLAYERS) then
    send (ToRequester s (choose_role_failed waiting_for_players))
  else
    match in_roles desired with
    | None => send (ToRequester s (choose_role_failed invalid_role))
    | Some desired =>
        let owner := owner_of (ROLE_OWNER w) desired in
        if owner_truthy owner && negb (owner_is owner s) then
          send (ToRequester s (choose_role_failed role_taken))
        else
          let other_role := find_other_role (ROLE_OWNER w) s desired in
          if bool_decide (other_role ≠ None) then
            send (ToRequester s (choose_role_failed already_owns_other_role))
          else
            assign_owner desired (Some s) ;;
            assign_connection_role s (Some desired) ;;
            send (ToRequester s (choose_role_success desired)) ;;
            broadcast_roles ;;
            w' ← read;
            if all_roles_taken w' then send (ToAll roles_ready) else ret tt
    end.

Definition handle_release_role (s : sid) (data : pyval) : M unit :=
  r ← lift (py_get (or_empty_dict data) "role");
  w ← read;
  match in_roles r with
  | Some r =>
      if owner_is (owner_of (ROLE_OWNER w) r) s then
        assign_owner r None ;;
        assign_connection_role s None ;;
        send (ToRequester s (role_released r)) ;;
        broadcast_roles
      else ret tt
  | None => ret tt
  end.

(** ** Runs of the lobby *)

(** One event delivered by the transport. *)
Inductive Call : Type :=
| connect (s : sid)
| disconnect (s : sid)
| choose_role (s : sid) (data : pyval)
| release_role (s : sid) (data : pyval).

Definition handle (c : Call) : M unit :=
  match c with
  | connect s => handle_connect s
  | disconnect s => handle_disconnect s
  | choose_role s data => handle_choose_role s data
  | release_role s data => handle_release_role s data
  end.

(** The state a call leaves behind, whether it returned or raised. *)
Definition after (w : World) (c : Call) : World := world (handle c w).

(** States reached from the empty lobby by calls allowed by [ok]. *)
Inductive reachable_by (ok : World → Call → Prop) : World → Prop :=
| reach_initial : reachable_by ok initial
| reach_call w c : reachable_by ok w → ok w c → reachable_by ok (after w c).

(** Any sequence of calls, from any socket id with any payload. *)
Definition reachable : World → Prop := reachable_by (λ _ _, True).

Definition caller (c : Call) : sid :=
  match c with
  | connect s | disconnect s | choose_role s _ | release_role s _ => s
  end.

Definition connected (w : World) (s : sid) : Prop := is_Some (CONNECTED w !! s).

(** What the transport guarantees: a socket id is a non-empty string, and
    [choose_role] and [release_role] events come from live connections. *)
Definition delivered (w : World) (c : Call) : Prop :=
  caller c ≠ "" ∧
  match c with
  | choose_role s _ | release_role s _ => connected w s
  | _ => True
  end.

(** ** Predicates on states *)

Definition owns (w : World) (c : sid) (r : RoleKind) : Prop :=
  owner_of (ROLE_OWNER w) r = Some c.

(** Every owner is a live connection. *)
Definition owners_connected (w : World) : Prop :=
  ∀ r c, owns w c r → connected w c.

(** No owner is the empty string, so that an owned role is a true value. *)
Definition owners_nonempty (w : World) : Prop :=
  ∀ r, ¬ owns w "" r.

(** The role asked for by a payload: [(data or {}).get("role")]. *)
Definition requested (data : pyval) : exn + pyval :=
  py_get (or_empty_dict data) "role".

(** The four preconditions of [chooseRole], each on its own, and the order
    in which they are to be checked. *)
Definition violates (w : World) (s : sid) (desired : pyval) (e : ErrorTag) : Prop :=
  match e with
  | waiting_for_players => size (CONNECTED w) < 2
  | invalid_role => in_roles desired = None
  | role_taken =>
      ∃ r c, in_roles desired = Some r ∧ owns w c r ∧ c ≠ s
  | already_owns_other_role =>
      ∃ r, in_roles desired ≠ Some r ∧ owns w s r
  end.

Definition rank (e : ErrorTag) : nat :=
  match e with
  | waiting_for_players => 0
  | invalid_role => 1
  | role_taken => 2
  | already_owns_other_role => 3
  end.

Definition first_violation (w : World) (s : sid) (desired : pyval) (e : ErrorTag) : Prop :=
  violates w s desired e ∧ ∀ e', rank e' < rank e → ¬ violates w s desired e'.

(** A run that answered [choose_role_success]. *)
Definition succeeded (run : Run unit) (s : sid) (r : RoleKind) : Prop :=
  result run = Returned tt ∧ ToRequester s (choose_role_success r) ∈ sent run.

(** The state and the messages of a [choose_role] that passes every check. *)
Definition claimed (w : World) (s : sid) (r : RoleKind) : World :=
  {| CONNECTED := <[s := {| role := Some r |}]> (CONNECTED w);
     ROLE_OWNER := set_owner (ROLE_OWNER w) r (Some s) |}.

Definition released (w : World) (s : sid) (r : RoleKind) : World :=
  {| CONNECTED := <[s := {| role := None |}]> (CONNECTED w);
     ROLE_OWNER := set_owner (ROLE_OWNER w) r None |}.

Definition roles_message (w : World) : Event :=
  ToAll (roles_update (fst (owners w)) (snd (owners w))).

(** The assignment at the end of [handle_choose_role] and what follows it:
    [ROLE_OWNER] is written first, so it stays written when the subscript
    [CONNECTED[sid]] raises. *)
Definition claim_run (w : World) (s : sid) (r : RoleKind) : Run unit :=
  match CONNECTED w !! s with
  | None =>
      mkRun (Raised KeyError)
        {| CONNECTED := CONNECTED w;
           ROLE_OWNER := set_owner (ROLE_OWNER w) r (Some s) |} []
  | Some _ =>
      mkRun (Returned tt) (claimed w s r)
        (ToRequester s (choose_role_success r)
         :: roles_message (claimed w s r)
         :: (if all_roles_taken (claimed w s r) then [ToAll roles_ready] else []))
  end.

Definition failure (w : World) (s : sid) (e : ErrorTag) : Run unit :=
  mkRun (Returned tt) w [ToRequester s (choose_role_failed e)].

(** The roles left after the loop of [handle_disconnect]. *)
Definition dropped (o : Owners) (s : sid) : Owners :=
  {| owner_hacker := if owner_is (owner_hacker o) s then None else owner_hacker o;
     owner_defender := if owner_is (owner_defender o) s then None else owner_defender o |}.

Definition disconnected (w : World) (s : sid) : World :=
  {| CONNECTED := delete s (CONNECTED w); ROLE_OWNER := dropped (ROLE_OWNER w) s |}.

(** The state after [handle_connect]. *)
Definition joined (w : World) (s : sid) : World :=
  {| CONNECTED := <[s := {| role := None |}]> (CONNECTED w); ROLE_OWNER := ROLE_OWNER w |}.

(** No socket id owns two roles. *)
Definition exclusive (o : Owners) : Prop :=
  ∀ c r1 r2, owner_of o r1 = Some c → owner_of o r2 = Some c → r1 = r2.

(** Both roles have an owner. *)
Definition both_owned (w : World) : Prop :=
  ∃ c1 c2, owns w c1 hacker ∧ owns w c2 defender.

(** A payload that names no role: [None], or a dict without the key. *)
Definition names_no_role (data : pyval) : Prop :=
  data = PyNone ∨ ∃ d, data = PyDict d ∧ "role" ∉ d.*1.

(** Example connections and payloads. *)
Definition A : sid := "A".
Definition B : sid := "B".
Definition pick (r : string) : pyval := PyDict [("role", PyStr r)].

(** The lobby with [A] and [B] connected. *)
Definition two_players : World := after (after initial (connect A)) (connect B).

(** [A] holds the hacker role while [B] is connected. *)
Definition hacker_claimed : World := after two_players (choose_role A (pick "hacker")).

(** The lobby with [A] alone. *)
Definition lone_player : World := after initial (connect A).

(** ** HTTP routes

    The Flask session is a dict kept in a signed cookie; a route reads and
    writes it by key. A route returns a response: [jsonify(body), status],
    [redirect(url_for(endpoint))] or [render_template(template)]. *)

Inductive Response : Type :=
| Jsonify (body : list (string * pyval)) (status : nat)
| Redirect (endpoint : string)
| Render (template : string).

(** [v != s] for the result [v] of [session.get(key)] and a string literal
    [s], negated: the value is that string. *)
Definition is_str (v : option pyval) (s : string) : bool :=
  match v with
  | Some (PyStr t) => String.eqb t s
  | _ => false
  end.

Definition index : Response := Render "base.html".

(** [body] is the result of [request.get_json(silent=True)], [None] when
    the request carries no JSON; [token] is the value that
    [secrets.token_urlsafe(8)] returns when it is called. The route gives
    back its response and the session as it leaves it. *)
Definition set_role (body : pyval) (token : string) (session : gmap string pyval)
  : M (Response * gmap string pyval) :=
  role ← lift (py_get (or_empty_dict body) "role");
  match in_roles role with
  | None =>
      mret (Jsonify [("ok", PyBool false); ("error", PyStr "invalid role")] 400,
            session)
  | Some _ =>
      let session :=
        if bool_decide (session !! "player_id" = None)
        then <["player_id" := PyStr token]> session else session in
      let session := <["role" := role]> session in
      w ← read;
      (if all_roles_taken w then send (ToAll roles_ready) else mret tt) ;;
      mret (Jsonify [("ok", PyBool true); ("role", role)] 200, session)
  end.

Definition hacker_page (session : gmap string pyval) : Response :=
  if negb (is_str (session !! "role") "hacker")
  then Redirect "index" else Render "hacker.html".

Definition defender_page (session : gmap string pyval) : Response :=
  if negb (is_str (session !! "role") "defender")
  then Redirect "index" else Render "defender.html".

(** The page of a role and its template. *)
Definition page_of (r : RoleKind) : gmap string pyval → Response :=
  match r with hacker => hacker_page | defender => defender_page end.

Definition template_of (r : RoleKind) : string :=
  match r with hacker => "hacker.html" | defender => "defender.html" end.

(** ** More predicates on states and payloads *)

(** Calls the transport can deliver, where moreover a connect event never
    names a socket id that is already connected. *)
Definition orderly (w : World) (c : Call) : Prop :=
  delivered w c ∧
  match c with
  | connect s => ¬ connected w s
  | _ => True
  end.

(** The role recorded in a connection and the owner table say the same. *)
Definition roles_agree (w : World) : Prop :=
  ∀ c r, CONNECTED w !! c = Some {| role := Some r |} ↔ owns w c r.

(** A payload that is not a dict. *)
Definition not_a_dict (data : pyval) : Prop :=
  match data with PyDict _ => False | _ => True end.

(** The state after a run of connect events. *)
Definition connect_all (w : World) (l : list sid) : World :=
  foldl after w (connect <$> l).

(** * Properties *)

Ltac run_unfold :=
  repeat progress
    (unfold mbind, M_bind, bind, mret, M_ret, ret, read, write, send, raise,
       lift, assign_owner, assign_connection_role, broadcast_roles,
       broadcast_player_count;
     cbn [result world sent CONNECTED ROLE_OWNER app]).

(** ** Unfolding the handlers *)

Lemma handle_choose_role_run s data w :
  handle_choose_role s data w =
  match requested data with
  | inl e => mkRun (Raised e) w []
  | inr desired =>
      if bool_decide (size (CONNECTED w) < MAX_PLAYERS) then
        failure w s waiting_for_players
      else
        match in_roles desired with
        | None => failure w s invalid_role
        | Some r =>
            if owner_truthy (owner_of (ROLE_OWNER w) r)
               && negb (owner_is (owner_of (ROLE_OWNER w) r) s)
            then failure w s role_taken
            else if bool_decide (find_other_role (ROLE_OWNER w) s r ≠ None)
            then failure w s already_owns_other_role
            else claim_run w s r
        end
  end.
Proof.
  unfold handle_choose_role, requested, failure, claim_run.
  destruct (py_get (or_empty_dict data) "role") as [e|desired]; run_unfold; [done|].
  case_bool_decide; [done|].
  destruct (in_roles desired) as [r|]; [|done].
  destruct (owner_truthy _ && _); [done|].
  case_bool_decide; [done|].
  destruct (CONNECTED w !! s); run_unfold; [|done].
  unfold claimed, roles_message.
  destruct (all_roles_taken _); reflexivity.
Qed.

Lemma handle_release_role_run s data w :
  handle_release_role s data w =
  match requested data with
  | inl e => mkRun (Raised e) w []
  | inr v =>
      match in_roles v with
      | None => mkRun (Returned tt) w []
      | Some r =>
          if owner_is (owner_of (ROLE_OWNER w) r) s then
            match CONNECTED w !! s with
            | None =>
                mkRun (Raised KeyError)
                  {| CONNECTED := CONNECTED w;
                     ROLE_OWNER := set_owner (ROLE_OWNER w) r None |} []
            | Some _ =>
                mkRun (Returned tt) (released w s r)
                  [ToRequester s (role_released r); roles_message (released w s r)]
            end
          else mkRun (Returned tt) w []
      end
  end.
Proof.
  unfold handle_release_role, requested.
  destruct (py_get (or_empty_dict data) "role") as [e|v]; run_unfold; [done|].
  destruct (in_roles v) as [r|]; [|done].
  destruct (owner_is _ s); [|done].
  destruct (CONNECTED w !! s); run_unfold; done.
Qed.

Lemma handle_disconnect_run s w :
  handle_disconnect s w =
  mkRun (Returned tt) (disconnected w s)
    [ToAll (player_count (size (delete s (CONNECTED w))) MAX_PLAYERS);
     roles_message (disconnected w s)].
Proof.
  unfold handle_disconnect, disconnected, dropped, roles_message, owners.
  destruct w as [conn [oh od]]; unfold items.
  cbn [for_each]; run_unfold; cbn [owner_hacker owner_defender].
  destruct (owner_is oh s), (owner_is od s); reflexivity.
Qed.

Lemma handle_connect_run s w :
  handle_connect s w =
  mkRun (Returned tt) (joined w s)
    [ToAll (player_count (size (<[s := {| role := None |}]> (CONNECTED w))) MAX_PLAYERS);
     roles_message (joined w s)].
Proof. reflexivity. Qed.

(** ** Facts about the role table *)

Lemma owner_of_set_owner o r v r' :
  owner_of (set_owner o r v) r' = if decide (r = r') then v else owner_of o r'.
Proof. destruct r, r'; reflexivity. Qed.

Lemma owner_of_dropped o s r :
  owner_of (dropped o s) r =
  if decide (owner_of o r = Some s) then None else owner_of o r.
Proof.
  destruct r; cbn [owner_of dropped owner_hacker owner_defender];
    unfold owner_is; case_bool_decide; case_decide; done.
Qed.

Lemma find_other_role_spec o s r :
  find_other_role o s r ≠ None ↔ ∃ r', r' ≠ r ∧ owner_of o r' = Some s.
Proof.
  unfold find_other_role, items, owner_is. cbn [List.find].
  split.
  - repeat case_bool_decide; cbn; intros Hf; try done;
      first [by exists hacker; split; [|exact H]
            | by exists defender; split; [|eassumption] ].
  - intros [r' [Hne Ho]].
    destruct r'; cbn [owner_of] in Ho; rewrite Ho;
      repeat case_bool_decide; cbn; done.
Qed.

Lemma exclusive_initial : exclusive (ROLE_OWNER initial).
Proof. intros c r1 r2 H. destruct r1; discriminate H. Qed.

Lemma exclusive_clear o r : exclusive o → exclusive (set_owner o r None).
Proof.
  intros Hex c r1 r2. rewrite !owner_of_set_owner.
  repeat case_decide; try done. apply Hex.
Qed.

Lemma exclusive_dropped o s : exclusive o → exclusive (dropped o s).
Proof.
  intros Hex c r1 r2. rewrite !owner_of_dropped.
  repeat case_decide; try done. apply Hex.
Qed.

Lemma exclusive_claim o s r :
  exclusive o → find_other_role o s r = None → exclusive (set_owner o r (Some s)).
Proof.
  intros Hex Hnone c r1 r2. rewrite !owner_of_set_owner.
  assert (∀ r', r' ≠ r → owner_of o r' ≠ Some s) as Hfree.
  { intros r' Hne Ho. destruct (find_other_role_spec o s r) as [_ Hback].
    apply Hback; [|done]. by exists r'. }
  repeat case_decide; subst; try done.
  - intros [= <-] Ho. by destruct (Hfree r2).
  - intros Ho [= <-]. by destruct (Hfree r1).
  - apply Hex.
Qed.

Lemma after_exclusive w c :
  exclusive (ROLE_OWNER w) → exclusive (ROLE_OWNER (after w c)).
Proof.
  intros Hex. unfold after. destruct c as [s|s|s data|s data]; cbn [handle].
  - done.
  - rewrite handle_disconnect_run. by apply exclusive_dropped.
  - rewrite handle_choose_role_run. unfold failure, claim_run, claimed.
    destruct (requested data) as [e|desired]; [done|].
    case_bool_decide; [done|].
    destruct (in_roles desired) as [r|]; [|done].
    destruct (_ && _); [done|].
    case_bool_decide as Hother; [done|].
    destruct (CONNECTED w !! s); by apply exclusive_claim.
  - rewrite handle_release_role_run. unfold released.
    destruct (requested data) as [e|v]; [done|].
    destruct (in_roles v) as [r|]; [|done].
    destruct (owner_is _ s); [|done].
    destruct (CONNECTED w !! s); by apply exclusive_clear.
Qed.

Lemma reachable_exclusive w : reachable w → exclusive (ROLE_OWNER w).
Proof.
  induction 1 as [|w c _ IH _].
  - apply exclusive_initial.
  - by apply after_exclusive.
Qed.

(** ** States the transport can produce

    The theorems below about rejected choices and about disconnecting
    assume that no owner is the empty string and that every owner is
    connected. Both hold in every state reached by calls the transport can
    deliver. *)

Lemma after_delivered w c :
  delivered w c →
  owners_connected w ∧ owners_nonempty w →
  owners_connected (after w c) ∧ owners_nonempty (after w c).
Proof.
  unfold owners_connected, owners_nonempty, owns, connected, after.
  intros [Hsid Hlive] [Hoc Hne].
  destruct c as [s|s|s data|s data]; cbn [handle caller] in *.
  - rewrite handle_connect_run. cbn [world joined CONNECTED ROLE_OWNER].
    split; [|done]. intros r c Hown. apply lookup_insert_is_Some'. right. eauto.
  - rewrite handle_disconnect_run. cbn [world disconnected CONNECTED ROLE_OWNER].
    split.
    + intros r c. rewrite owner_of_dropped. case_decide as Hs; [done|].
      intros Hown. rewrite lookup_delete_ne by congruence. eauto.
    + intros r. rewrite owner_of_dropped. case_decide; [done|]. apply Hne.
  - rewrite handle_choose_role_run. unfold failure, claim_run.
    destruct (requested data) as [e|desired]; [done|].
    case_bool_decide; [done|].
    destruct (in_roles desired) as [r|]; [|done].
    destruct (_ && _); [done|].
    case_bool_decide; [done|].
    destruct Hlive as [conn ->]. cbn [world claimed CONNECTED ROLE_OWNER].
    split.
    + intros r' c. rewrite owner_of_set_owner.
      case_decide; intros Hown; apply lookup_insert_is_Some';
        [left; congruence | right; eauto].
    + intros r'. rewrite owner_of_set_owner.
      case_decide; [congruence | apply Hne].
  - rewrite handle_release_role_run.
    destruct (requested data) as [e|v]; [done|].
    destruct (in_roles v) as [r|]; [|done].
    destruct (owner_is _ s); [|done].
    destruct Hlive as [conn ->]. cbn [world released CONNECTED ROLE_OWNER].
    split.
    + intros r' c. rewrite owner_of_set_owner.
      case_decide; intros Hown; [done|].
      apply lookup_insert_is_Some'. right. eauto.
    + intros r'. rewrite owner_of_set_owner. case_decide; [done | apply Hne].
Qed.

Lemma delivered_invariants w :
  reachable_by delivered w → owners_connected w ∧ owners_nonempty w.
Proof.
  induction 1 as [|w c _ IH Hok].
  - split; [intros r c Hown | intros r Hown]; destruct r; discriminate Hown.
  - by apply after_delivered.
Qed.

(** ** C1: role ownership is exclusive *)

(** C1. In every state reached from the empty lobby by any sequence of
    connect, disconnect, choose_role and release_role calls, a role has at
    most one owner and a socket id owns at most one role. *)
Theorem C1_ownership_exclusive (w : World) :
  reachable w →
  (∀ r c1 c2, owns w c1 r → owns w c2 r → c1 = c2) ∧
  (∀ c r1 r2, owns w c r1 → owns w c r2 → r1 = r2).
Proof.
  intros Hreach. split.
  - unfold owns. intros r c1 c2 H1 H2. congruence.
  - intros c r1 r2. apply (reachable_exclusive w Hreach).
Qed.

Lemma C1_ownership_exclusive_witness :
  reachable hacker_claimed ∧
  (∀ r c1 c2, owns hacker_claimed c1 r → owns hacker_claimed c2 r → c1 = c2) ∧
  (∀ c r1 r2, owns hacker_claimed c r1 → owns hacker_claimed c r2 → r1 = r2).
Proof.
  assert (reachable hacker_claimed) as Hreach.
  { unfold hacker_claimed, two_players. by repeat apply reach_call; try apply reach_initial. }
  split; [exact Hreach | exact (C1_ownership_exclusive hacker_claimed Hreach)].
Defined.

(** ** The checks of [handle_choose_role] against the four preconditions *)

Lemma taken_check w s r :
  owners_nonempty w →
  owner_truthy (owner_of (ROLE_OWNER w) r)
    && negb (owner_is (owner_of (ROLE_OWNER w) r) s) = true
  ↔ ∃ c, owns w c r ∧ c ≠ s.
Proof.
  intros Hne. specialize (Hne r). unfold owns, owner_is in *.
  destruct (owner_of (ROLE_OWNER w) r) as [c|]; cbn [owner_truthy].
  - assert (String.eqb c "" = false) as ->.
    { apply String.eqb_neq. intros ->. by apply Hne. }
    cbn [negb andb]. case_bool_decide as Heq; cbn [negb].
    + split; [done|]. intros [c' [[= <-] Hc']]. congruence.
    + split; [|done]. intros _. exists c. split; [done|]. congruence.
  - split; [done|]. by intros [c [? _]].
Qed.

Lemma first_violation_unique w s desired e1 e2 :
  first_violation w s desired e1 → first_violation w s desired e2 → e1 = e2.
Proof.
  intros [Hv1 Hmin1] [Hv2 Hmin2].
  destruct (lt_eq_lt_dec (rank e1) (rank e2)) as [[Hlt|Heq]|Hlt].
  - by destruct (Hmin2 e1 Hlt).
  - destruct e1, e2; cbn in Heq; done.
  - by destruct (Hmin1 e2 Hlt).
Qed.

(** Every [choose_role] call whose payload can be read either answers with
    the first violated precondition and changes nothing, or no precondition
    is violated and it goes on to the assignment. *)
Lemma choose_role_cases w s data desired :
  owners_nonempty w →
  requested data = inr desired →
  (∃ e, first_violation w s desired e ∧
        handle_choose_role s data w = failure w s e) ∨
  ((∀ e, ¬ violates w s desired e) ∧
   ∃ r, in_roles desired = Some r ∧
        find_other_role (ROLE_OWNER w) s r = None ∧
        handle_choose_role s data w = claim_run w s r).
Proof.
  intros Hne Hreq. rewrite handle_choose_role_run, Hreq.
  unfold first_violation, MAX_PLAYERS.
  case_bool_decide as Hcount.
  { left. exists waiting_for_players. split; [|done].
    split; [done|]. intros e'. cbn [rank]. lia. }
  destruct (in_roles desired) as [r|] eqn:Hrole; cycle 1.
  { left. exists invalid_role. split; [|done]. split; [done|].
    intros e' Hlt. destruct e'; cbn [rank] in Hlt; try lia. done. }
  destruct (owner_truthy _ && _) eqn:Htaken.
  { left. exists role_taken. split; [|done].
    apply taken_check in Htaken as [c [Hown Hc]]; [|done]. split.
    - exists r, c. done.
    - intros e' Hlt. destruct e'; cbn [rank] in Hlt; try lia; cbn [violates].
      + done.
      + by rewrite Hrole. }
  assert (¬ violates w s desired role_taken) as Hfree.
  { intros [r' [c [Hr' [Hown Hc]]]]. rewrite Hrole in Hr'. injection Hr' as <-.
    assert (owner_truthy (owner_of (ROLE_OWNER w) r)
            && negb (owner_is (owner_of (ROLE_OWNER w) r) s) = true) as Ht.
    { apply taken_check; [done|]. by exists c. }
    congruence. }
  case_bool_decide as Hother.
  { left. exists already_owns_other_role. split; [|done].
    apply find_other_role_spec in Hother as [r' [Hr' Hown]]. split.
    - exists r'. split; [|done]. rewrite Hrole. congruence.
    - intros e' Hlt. destruct e'; cbn [rank] in Hlt; try lia; try done.
      cbn [violates]. by rewrite Hrole. }
  right. split.
  - intros e. destruct e; cbn [violates]; try done.
    + by rewrite Hrole.
    + intros [r' [Hr' Hown]]. rewrite Hrole in Hr'.
      assert (find_other_role (ROLE_OWNER w) s r ≠ None) as Hsome; [|done].
      apply find_other_role_spec. exists r'. split; [congruence|done].
  - exists r. done.
Qed.

Lemma failure_not_broadcast w s e m : ToAll m ∉ sent (failure w s e).
Proof. cbn [failure sent]. intros Hin. by apply list_elem_of_singleton in Hin. Qed.

Lemma claim_run_sent w s r e :
  sent (claim_run w s r) ≠ [ToRequester s (choose_role_failed e)].
Proof. unfold claim_run. by destruct (CONNECTED w !! s). Qed.

Lemma dict_get_missing d key : key ∉ d.*1 → dict_get d key = PyNone.
Proof.
  induction d as [|[k v] d IH]; [done|].
  rewrite fmap_cons, not_elem_of_cons. cbn [fst dict_get]. intros [Hne Hd].
  destruct (String.eqb_spec k key) as [->|_]; [done|]. by apply IH.
Qed.

Lemma names_no_role_requested data : names_no_role data → requested data = inr PyNone.
Proof.
  unfold requested. intros [->|[d [-> Hd]]]; [done|].
  destruct d as [|kv d]; [done|].
  cbn [or_empty_dict truthy py_get]. by rewrite dict_get_missing.
Qed.

(** The answer to a request for something that is not one of the roles. *)
Lemma choose_invalid_role w s data desired :
  requested data = inr desired →
  in_roles desired = None →
  handle_choose_role s data w =
  failure w s (if bool_decide (size (CONNECTED w) < 2)
               then waiting_for_players else invalid_role).
Proof.
  intros Hreq Hrole. rewrite handle_choose_role_run, Hreq, Hrole.
  unfold MAX_PLAYERS. by case_bool_decide.
Qed.

(** ** C2: a rejected choice changes nothing and is answered in private *)

(** C2. Whenever one of the four preconditions of chooseRole is violated,
    the handler leaves [CONNECTED] and [ROLE_OWNER] as they were and sends
    exactly one message, [choose_role_failed] with the tag of a violated
    precondition, to the requesting socket id; nothing is broadcast. Socket
    ids are non-empty strings. *)
Theorem C2_rejected_choice_changes_nothing
  (w : World) (s : sid) (data desired : pyval) :
  owners_nonempty w →
  requested data = inr desired →
  (∃ e, violates w s desired e) →
  ∃ e, violates w s desired e ∧
       handle_choose_role s data w =
         mkRun (Returned tt) w [ToRequester s (choose_role_failed e)] ∧
       ∀ m, ToAll m ∉ sent (handle_choose_role s data w).
Proof.
  intros Hne Hreq [e0 Hv].
  destruct (choose_role_cases w s data desired Hne Hreq)
    as [[e [[He _] Hrun]]|[Hnone _]].
  - exists e. split; [done|]. split; [done|].
    intros m. rewrite Hrun. apply failure_not_broadcast.
  - by destruct (Hnone e0).
Qed.

Lemma C2_rejected_choice_changes_nothing_witness :
  ∃ e, violates hacker_claimed B (PyStr "hacker") e ∧
       handle_choose_role B (pick "hacker") hacker_claimed =
         mkRun (Returned tt) hacker_claimed [ToRequester B (choose_role_failed e)] ∧
       ∀ m, ToAll m ∉ sent (handle_choose_role B (pick "hacker") hacker_claimed).
Proof.
  apply (C2_rejected_choice_changes_nothing hacker_claimed B (pick "hacker")).
  - intros []; vm_compute; congruence.
  - reflexivity.
  - exists role_taken, hacker, A. vm_compute. repeat split; congruence.
Defined.

(** ** C3: the first violated precondition is the one reported *)

(** C3. The handler answers [choose_role_failed] with tag [e] exactly when
    [e] is violated and no precondition before it, in the order
    waiting_for_players, invalid_role, role_taken, already_owns_other_role,
    is violated. Socket ids are non-empty strings. *)
Theorem C3_first_violation_reported
  (w : World) (s : sid) (data desired : pyval) (e : ErrorTag) :
  owners_nonempty w →
  requested data = inr desired →
  sent (handle_choose_role s data w) = [ToRequester s (choose_role_failed e)]
  ↔ first_violation w s desired e.
Proof.
  intros Hne Hreq.
  destruct (choose_role_cases w s data desired Hne Hreq)
    as [[e0 [Hfirst Hrun]]|[Hnone [r [_ [_ Hrun]]]]]; rewrite Hrun.
  - cbn [failure sent]. split.
    + intros [= <-]. done.
    + intros He. by rewrite (first_violation_unique w s desired e e0).
  - split.
    + intros Hsent. by destruct (claim_run_sent w s r e).
    + intros [Hv _]. by destruct (Hnone e).
Qed.

Lemma C3_first_violation_reported_witness :
  sent (handle_choose_role B (pick "hacker") hacker_claimed)
    = [ToRequester B (choose_role_failed role_taken)]
  ↔ first_violation hacker_claimed B (PyStr "hacker") role_taken.
Proof.
  apply (C3_first_violation_reported hacker_claimed B (pick "hacker")).
  - intros []; vm_compute; congruence.
  - reflexivity.
Defined.

(** ** C4: a role that does not exist *)

(** C4, as stated, fails: with one player connected a request for "wizard"
    is answered with waiting_for_players, not with invalid_role. *)
Lemma C4_counterexample :
  size (CONNECTED lone_player) = 1 ∧
  in_roles (PyStr "wizard") = None ∧
  handle_choose_role A (pick "wizard") lone_player
    = mkRun (Returned tt) lone_player
        [ToRequester A (choose_role_failed waiting_for_players)] ∧
  ToRequester A (choose_role_failed invalid_role)
    ∉ sent (handle_choose_role A (pick "wizard") lone_player).
Proof.
  split; [reflexivity|]. split; [reflexivity|]. split; [reflexivity|].
  intros Hin. vm_compute in Hin. apply list_elem_of_singleton in Hin. discriminate Hin.
Qed.

(** C4, amended. A request for a role outside hacker and defender is
    answered with invalid_role when at least two players are connected, and
    with waiting_for_players when fewer are; the state is unchanged either
    way. *)
Theorem C4_invalid_role_once_two_players
  (w : World) (s : sid) (data desired : pyval) :
  requested data = inr desired →
  in_roles desired = None →
  ((2 ≤ size (CONNECTED w))%nat →
   handle_choose_role s data w
     = mkRun (Returned tt) w [ToRequester s (choose_role_failed invalid_role)]) ∧
  (size (CONNECTED w) < 2 →
   handle_choose_role s data w
     = mkRun (Returned tt) w [ToRequester s (choose_role_failed waiting_for_players)]).
Proof.
  intros Hreq Hrole. rewrite (choose_invalid_role w s data desired Hreq Hrole).
  unfold failure. split; intros Hsize; case_bool_decide; done || lia.
Qed.

Lemma C4_invalid_role_once_two_players_witness :
  ((2 ≤ size (CONNECTED two_players))%nat →
   handle_choose_role A (pick "wizard") two_players
     = mkRun (Returned tt) two_players
         [ToRequester A (choose_role_failed invalid_role)]) ∧
  (size (CONNECTED two_players) < 2 →
   handle_choose_role A (pick "wizard") two_players
     = mkRun (Returned tt) two_players
         [ToRequester A (choose_role_failed waiting_for_players)]).
Proof.
  apply (C4_invalid_role_once_two_players two_players A (pick "wizard") (PyStr "wizard"));
    reflexivity.
Defined.

(** ** C10: a payload that names no role *)

(** C10. When the payload is [None] or a dict without the key "role", the
    handler does not raise: it answers waiting_for_players when fewer than
    two players are connected and invalid_role otherwise, and leaves the
    state unchanged. *)
Theorem C10_missing_role_is_rejected (w : World) (s : sid) (data : pyval) :
  names_no_role data →
  handle_choose_role s data w =
  mkRun (Returned tt) w
    [ToRequester s (choose_role_failed
       (if bool_decide (size (CONNECTED w) < 2)
        then waiting_for_players else invalid_role))].
Proof.
  intros Hdata. apply names_no_role_requested in Hdata.
  by rewrite (choose_invalid_role w s data PyNone Hdata).
Qed.

Lemma C10_missing_role_is_rejected_witness :
  names_no_role (PyDict [("team", PyStr "red")]) ∧
  handle_choose_role A (PyDict [("team", PyStr "red")]) two_players =
  mkRun (Returned tt) two_players [ToRequester A (choose_role_failed invalid_role)].
Proof.
  assert (names_no_role (PyDict [("team", PyStr "red")])) as Hdata.
  { right. eexists. split; [reflexivity|].
    cbn. intros Hin. apply list_elem_of_singleton in Hin. discriminate Hin. }
  split; [exact Hdata|].
  exact (C10_missing_role_is_rejected two_players A _ Hdata).
Defined.

(** ** Successful choices *)

(** What a run that answered [choose_role_success] went through. *)
Lemma succeeded_inv w s data r :
  succeeded (handle_choose_role s data w) s r →
  ∃ desired,
    requested data = inr desired ∧
    in_roles desired = Some r ∧
    ¬ size (CONNECTED w) < MAX_PLAYERS ∧
    find_other_role (ROLE_OWNER w) s r = None ∧
    connected w s ∧
    handle_choose_role s data w =
      mkRun (Returned tt) (claimed w s r)
        (ToRequester s (choose_role_success r)
         :: roles_message (claimed w s r)
         :: (if all_roles_taken (claimed w s r) then [ToAll roles_ready] else [])).
Proof.
  unfold succeeded. rewrite handle_choose_role_run. unfold failure, claim_run, connected.
  destruct (requested data) as [e|desired]; [by intros [? _]|].
  exists desired. split; [done|]. revert H.
  assert (∀ e, ToRequester s (choose_role_success r)
               ∉ [ToRequester s (choose_role_failed e)]) as Hno.
  { intros e Hin. by apply list_elem_of_singleton in Hin. }
  case_bool_decide; [intros [_ Hin]; by destruct (Hno _ Hin)|].
  destruct (in_roles desired) as [r'|]; [|intros [_ Hin]; by destruct (Hno _ Hin)].
  destruct (_ && _); [intros [_ Hin]; by destruct (Hno _ Hin)|].
  case_bool_decide; [intros [_ Hin]; by destruct (Hno _ Hin)|].
  destruct (CONNECTED w !! s) as [conn|] eqn:Hconn; [|by intros [? _]].
  cbn [result sent]. intros [_ Hin].
  assert (r' = r) as ->.
  { apply elem_of_cons in Hin as [[= ->]|Hin]; [done|].
    apply elem_of_cons in Hin as [Hin|Hin]; [discriminate Hin|].
    destruct (all_roles_taken _).
    - apply list_elem_of_singleton in Hin. discriminate Hin.
    - by apply elem_of_nil in Hin. }
  done.
Qed.

Lemma set_owner_twice o r v : set_owner (set_owner o r v) r v = set_owner o r v.
Proof. by destruct r. Qed.

Lemma claimed_twice w s r : claimed (claimed w s r) s r = claimed w s r.
Proof.
  unfold claimed. cbn [CONNECTED ROLE_OWNER].
  by rewrite insert_insert_eq, set_owner_twice.
Qed.

(** Asking again for the role just obtained runs through the same checks
    and ends in the same state with the same messages. *)
Lemma choose_again w s r data desired :
  ¬ size (CONNECTED w) < MAX_PLAYERS →
  find_other_role (ROLE_OWNER w) s r = None →
  connected w s →
  requested data = inr desired →
  in_roles desired = Some r →
  handle_choose_role s data (claimed w s r) =
  mkRun (Returned tt) (claimed w s r)
    (ToRequester s (choose_role_success r)
     :: roles_message (claimed w s r)
     :: (if all_roles_taken (claimed w s r) then [ToAll roles_ready] else [])).
Proof.
  intros Hcount Hother Hconn Hreq Hrole.
  assert (size (CONNECTED (claimed w s r)) = size (CONNECTED w)) as Hsize.
  { unfold claimed. cbn [CONNECTED]. by apply map_size_insert_Some. }
  assert (owner_of (ROLE_OWNER (claimed w s r)) r = Some s) as Hmine.
  { unfold claimed. cbn [ROLE_OWNER]. by rewrite owner_of_set_owner, decide_True. }
  assert (find_other_role (ROLE_OWNER (claimed w s r)) s r = None) as Hother'.
  { destruct (find_other_role (ROLE_OWNER (claimed w s r)) s r) as [r'|] eqn:Hfind; [|done].
    assert (find_other_role (ROLE_OWNER (claimed w s r)) s r ≠ None) as Hsome
      by (by rewrite Hfind).
    apply find_other_role_spec in Hsome as [r0 [Hne Hown]].
    unfold claimed in Hown. cbn [ROLE_OWNER] in Hown.
    rewrite owner_of_set_owner, decide_False in Hown by done.
    assert (find_other_role (ROLE_OWNER w) s r ≠ None) as Hbad; [|done].
    apply find_other_role_spec. by exists r0. }
  assert (CONNECTED (claimed w s r) !! s = Some {| role := Some r |}) as Hlook.
  { unfold claimed. cbn [CONNECTED]. apply lookup_insert_eq. }
  rewrite handle_choose_role_run, Hreq, Hrole, Hsize, Hmine, Hother'.
  rewrite bool_decide_false by done.
  unfold owner_is. rewrite bool_decide_true by done.
  rewrite andb_false_r, bool_decide_false by (by intros ?).
  unfold claim_run. by rewrite Hlook, claimed_twice.
Qed.

(** ** C5: choosing the role one holds *)

(** C5. After a socket id has successfully chosen a role, choosing the same
    role again succeeds again, sends [choose_role_success] and
    [roles_update] again, and leaves the state exactly as the first
    successful call left it. *)
Theorem C5_choose_role_idempotent
  (w : World) (s : sid) (data : pyval) (r : RoleKind) :
  let first := handle_choose_role s data w in
  let second := handle_choose_role s data (world first) in
  succeeded first s r →
  succeeded second s r ∧
  roles_message (world first) ∈ sent second ∧
  world second = world first.
Proof.
  intros first second Hok.
  destruct (succeeded_inv w s data r Hok)
    as [desired [Hreq [Hrole [Hcount [Hother [Hconn Hrun]]]]]].
  assert (second = first) as ->; cycle 1.
  { split; [done|]. split; [|done].
    subst first. rewrite Hrun. cbn [world sent]. set_solver. }
  subst second first. rewrite Hrun. cbn [world].
  by apply (choose_again w s r data desired).
Qed.

Lemma C5_choose_role_idempotent_witness :
  let first := handle_choose_role A (pick "hacker") two_players in
  let second := handle_choose_role A (pick "hacker") (world first) in
  succeeded first A hacker ∧
  succeeded second A hacker ∧
  roles_message (world first) ∈ sent second ∧
  world second = world first.
Proof.
  intros first second.
  assert (succeeded first A hacker) as Hok.
  { split; [reflexivity|]. vm_compute. apply list_elem_of_here. }
  split; [exact Hok|].
  exact (C5_choose_role_idempotent two_players A (pick "hacker") hacker Hok).
Defined.

(** ** C9: the messages of a successful choice *)

Lemma all_roles_taken_spec w : all_roles_taken w = true ↔ both_owned w.
Proof.
  unfold all_roles_taken, both_owned, owns. cbn [owner_of].
  rewrite andb_true_iff, !bool_decide_eq_true.
  destruct (owner_hacker (ROLE_OWNER w)) as [c1|], (owner_defender (ROLE_OWNER w)) as [c2|];
    split; try (by intros [? ?]); try (by intros [? [? [? ?]]]).
  intros _. by exists c1, c2.
Qed.

(** C9. A successful choice sends [choose_role_success] to the requester
    first, then broadcasts [roles_update], then broadcasts [roles_ready]
    as the last message exactly when both roles have an owner in the state
    after the assignment; it sends nothing else. *)
Theorem C9_messages_of_a_successful_choice
  (w : World) (s : sid) (data : pyval) (r : RoleKind) :
  let run := handle_choose_role s data w in
  succeeded run s r →
  ∃ ready,
    sent run
      = ToRequester s (choose_role_success r) :: roles_message (world run) :: ready ∧
    (both_owned (world run) → ready = [ToAll roles_ready]) ∧
    (¬ both_owned (world run) → ready = []).
Proof.
  intros run Hok.
  destruct (succeeded_inv w s data r Hok) as [desired [_ [_ [_ [_ [_ Hrun]]]]]].
  subst run. rewrite Hrun. cbn [world sent].
  eexists. split; [reflexivity|].
  rewrite <- all_roles_taken_spec.
  destruct (all_roles_taken _); split; intros H; done.
Qed.

(** [B] takes the defender role after [A] took the hacker role. *)
Lemma C9_messages_of_a_successful_choice_witness :
  let run := handle_choose_role B (pick "defender") hacker_claimed in
  succeeded run B defender ∧
  ∃ ready,
    sent run
      = ToRequester B (choose_role_success defender) :: roles_message (world run) :: ready ∧
    (both_owned (world run) → ready = [ToAll roles_ready]) ∧
    (¬ both_owned (world run) → ready = []).
Proof.
  intros run.
  assert (succeeded run B defender) as Hok.
  { split; [reflexivity|]. vm_compute. apply list_elem_of_here. }
  split; [exact Hok|].
  exact (C9_messages_of_a_successful_choice hacker_claimed B (pick "defender") defender Hok).
Defined.

(** ** Disconnecting *)

Lemma dropped_id o s : (∀ r, owner_of o r ≠ Some s) → dropped o s = o.
Proof.
  intros Hfree. destruct o as [oh od]. unfold dropped, owner_is.
  cbn [owner_hacker owner_defender].
  rewrite !bool_decide_false; [done | apply (Hfree defender) | apply (Hfree hacker)].
Qed.

(** A socket id that is not connected owns nothing, when every owner is
    connected. *)
Lemma absent_owns_nothing w s :
  owners_connected w → ¬ connected w s → ∀ r, owner_of (ROLE_OWNER w) r ≠ Some s.
Proof. intros Hoc Habsent r Hown. apply Habsent. by apply (Hoc r). Qed.

Lemma disconnected_absent w s :
  owners_connected w → ¬ connected w s → disconnected w s = w.
Proof.
  intros Hoc Habsent. unfold disconnected.
  rewrite dropped_id by by apply absent_owns_nothing.
  rewrite delete_id; [by destruct w|].
  unfold connected in Habsent. by apply eq_None_not_Some.
Qed.

Lemma disconnected_twice w s : disconnected (disconnected w s) s = disconnected w s.
Proof.
  unfold disconnected. cbn [CONNECTED ROLE_OWNER]. f_equal.
  - apply delete_id, lookup_delete_eq.
  - apply dropped_id. intros r. rewrite owner_of_dropped. by case_decide.
Qed.

(** The scenario of two players, for any two distinct socket ids. *)
Lemma size_two_players (a b : sid) :
  a ≠ b →
  size (CONNECTED (after (after initial (connect a)) (connect b))) = 2.
Proof.
  intros Hne. unfold after. cbn [handle]. rewrite !handle_connect_run.
  cbn [world joined CONNECTED initial].
  rewrite map_size_insert_None
    by (rewrite lookup_insert_ne by done; apply lookup_empty).
  rewrite map_size_insert_None by apply lookup_empty.
  by rewrite map_size_empty.
Qed.

Lemma first_claim (a b : sid) :
  a ≠ b →
  let w := after (after initial (connect a)) (connect b) in
  after w (choose_role a (pick "hacker")) = claimed w a hacker.
Proof.
  intros Hne w. unfold after at 1. cbn [handle].
  rewrite handle_choose_role_run.
  assert (requested (pick "hacker") = inr (PyStr "hacker")) as -> by reflexivity.
  assert (in_roles (PyStr "hacker") = Some hacker) as -> by reflexivity.
  subst w. rewrite size_two_players by done.
  rewrite bool_decide_false by (unfold MAX_PLAYERS; lia).
  unfold after. cbn [handle]. rewrite !handle_connect_run. cbn [world].
  set (w := joined (joined initial a) b).
  assert (ROLE_OWNER w = {| owner_hacker := None; owner_defender := None |})
    as Hroles by reflexivity.
  assert (find_other_role (ROLE_OWNER w) a hacker = None) as ->.
  { rewrite Hroles. unfold find_other_role, items, owner_is.
    cbn [owner_hacker owner_defender List.find].
    rewrite (bool_decide_false (None = Some a)) by done. reflexivity. }
  rewrite Hroles. cbn [owner_of owner_hacker owner_truthy andb].
  rewrite bool_decide_false by (by intros ?).
  unfold claim_run.
  assert (CONNECTED w !! a = Some {| role := None |}) as ->; [|done].
  subst w. unfold joined. cbn [CONNECTED].
  rewrite lookup_insert_ne by done. apply lookup_insert_eq.
Qed.

(** The state after the owner of the hacker role has left. *)
Lemma owner_leaves (a b : sid) :
  a ≠ b →
  after (after (after (after initial (connect a)) (connect b))
           (choose_role a (pick "hacker"))) (disconnect a)
  = {| CONNECTED := <[b := {| role := None |}]> ∅;
       ROLE_OWNER := {| owner_hacker := None; owner_defender := None |} |}.
Proof.
  intros Hne. rewrite first_claim by done.
  unfold after at 1. cbn [handle]. rewrite handle_disconnect_run. cbn [world].
  unfold after. cbn [handle]. rewrite !handle_connect_run. cbn [world].
  unfold disconnected, claimed, joined, dropped, owner_is.
  cbn [CONNECTED ROLE_OWNER initial set_owner owner_hacker owner_defender].
  rewrite bool_decide_true, bool_decide_false by done.
  rewrite delete_insert_eq, delete_insert_ne, delete_insert_eq by done.
  by rewrite delete_empty.
Qed.

(** ** C6: disconnecting releases the roles and removes the connection *)

(** C6. [handle_disconnect] clears every role owned by the socket id,
    leaves the other role as it was, and removes the socket id from
    [CONNECTED]. For a socket id that is not connected, in a state where
    every owner is connected, it changes nothing; a repeated disconnect
    changes nothing either. After connect(a), connect(b), a claims hacker,
    a disconnects, no role is taken and one player is left. *)
Theorem C6_disconnect_releases_and_removes (w : World) (s : sid) :
  let w' := world (handle_disconnect s w) in
  (∀ r, owns w s r → owner_of (ROLE_OWNER w') r = None) ∧
  (∀ r, ¬ owns w s r → owner_of (ROLE_OWNER w') r = owner_of (ROLE_OWNER w) r) ∧
  CONNECTED w' = delete s (CONNECTED w) ∧
  (owners_connected w → ¬ connected w s → w' = w) ∧
  world (handle_disconnect s w') = w' ∧
  (∀ a b : sid, a ≠ b →
     let left := after (after (after (after initial (connect a)) (connect b))
                          (choose_role a (pick "hacker"))) (disconnect a) in
     owners left = (false, false) ∧ size (CONNECTED left) = 1).
Proof.
  intros w'. subst w'. rewrite !handle_disconnect_run. cbn [world].
  split; [|split; [|split; [|split; [|split]]]].
  - intros r Hown. unfold disconnected. cbn [ROLE_OWNER].
    by rewrite owner_of_dropped, decide_True.
  - intros r Hown. unfold disconnected. cbn [ROLE_OWNER].
    by rewrite owner_of_dropped, decide_False.
  - done.
  - apply disconnected_absent.
  - apply disconnected_twice.
  - intros a b Hne. cbv zeta. rewrite (owner_leaves a b Hne).
    split; [reflexivity|]. cbn [CONNECTED].
    rewrite map_size_insert_None by apply lookup_empty.
    by rewrite map_size_empty.
Qed.

Lemma C6_disconnect_releases_and_removes_witness :
  world (handle_disconnect "C" hacker_claimed) = hacker_claimed ∧
  (let left := after hacker_claimed (disconnect A) in
   owners left = (false, false) ∧ size (CONNECTED left) = 1).
Proof.
  destruct (C6_disconnect_releases_and_removes hacker_claimed "C")
    as [_ [_ [_ [Hnoop [_ Hscenario]]]]].
  split.
  - apply Hnoop.
    + intros r c. destruct r; vm_compute; intros [= <-]; eauto.
    + vm_compute. by intros [? ?].
  - apply (Hscenario A B). vm_compute. congruence.
Defined.

(** ** C7: connecting and disconnecting at once *)

(** C7. In a state where every owner is connected, connecting a socket id
    that is not connected and disconnecting it at once leaves the number of
    players and the roles shown as taken as they were. *)
Theorem C7_connect_disconnect_restores (w : World) (s : sid) :
  owners_connected w →
  ¬ connected w s →
  let w' := after (after w (connect s)) (disconnect s) in
  size (CONNECTED w') = size (CONNECTED w) ∧ owners w' = owners w.
Proof.
  intros Hoc Habsent w'. subst w'. unfold after. cbn [handle].
  rewrite handle_disconnect_run, handle_connect_run. cbn [world].
  unfold disconnected, joined, owners. cbn [CONNECTED ROLE_OWNER].
  rewrite dropped_id by by apply absent_owns_nothing.
  rewrite delete_insert_eq, delete_id; [done|].
  unfold connected in Habsent. by apply eq_None_not_Some.
Qed.

Lemma C7_connect_disconnect_restores_witness :
  let w' := after (after hacker_claimed (connect "C")) (disconnect "C") in
  size (CONNECTED w') = size (CONNECTED hacker_claimed) ∧
  owners w' = owners hacker_claimed.
Proof.
  apply (C7_connect_disconnect_restores hacker_claimed "C").
  - intros r c. destruct r; vm_compute; intros [= <-]; eauto.
  - vm_compute. by intros [? ?].
Defined.

(** ** C8: releasing a role *)

(** C8. [handle_release_role] changes the state only when the role asked
    for is owned by the requesting socket id; otherwise it returns with the
    state unchanged and sends nothing. When the role is owned by the
    requester, a live connection, it clears the owner of the role and the
    role field of the connection, answers [role_released] to the requester
    and then broadcasts [roles_update]. *)
Theorem C8_release_role (w : World) (s : sid) (data v : pyval) :
  requested data = inr v →
  let run := handle_release_role s data w in
  ((∀ r, in_roles v = Some r → ¬ owns w s r) → run = mkRun (Returned tt) w []) ∧
  (∀ r, in_roles v = Some r → owns w s r → connected w s →
     run = mkRun (Returned tt) (released w s r)
             [ToRequester s (role_released r); roles_message (released w s r)] ∧
     owner_of (ROLE_OWNER (released w s r)) r = None ∧
     CONNECTED (released w s r) !! s = Some {| role := None |}).
Proof.
  intros Hreq run. subst run. rewrite handle_release_role_run, Hreq.
  unfold owns, owner_is. split.
  - intros Hnot. destruct (in_roles v) as [r|]; [|done].
    by rewrite bool_decide_false by by apply Hnot.
  - intros r -> Hown [conn Hconn]. rewrite bool_decide_true, Hconn by done.
    split; [done|]. unfold released. cbn [ROLE_OWNER CONNECTED]. split.
    + by rewrite owner_of_set_owner, decide_True.
    + apply lookup_insert_eq.
Qed.

(** [A] holds hacker and asks to release defender, then hacker. *)
Lemma C8_release_role_witness :
  handle_release_role A (pick "defender") hacker_claimed
    = mkRun (Returned tt) hacker_claimed [] ∧
  handle_release_role A (pick "hacker") hacker_claimed
    = mkRun (Returned tt) (released hacker_claimed A hacker)
        [ToRequester A (role_released hacker);
         roles_message (released hacker_claimed A hacker)].
Proof.
  split.
  - apply (C8_release_role hacker_claimed A (pick "defender") (PyStr "defender"));
      [reflexivity|].
    intros r [= <-]. vm_compute. congruence.
  - apply (C8_release_role hacker_claimed A (pick "hacker") (PyStr "hacker"));
      [reflexivity | reflexivity | reflexivity |].
    vm_compute. eauto.
Defined.

(** * Further properties of the handlers *)

(** ** Admission and the broadcast count *)

Lemma after_connect w s : after w (connect s) = joined w s.
Proof. unfold after. cbn [handle]. by rewrite handle_connect_run. Qed.

Lemma connected_joined w s c : connected (joined w s) c ↔ s = c ∨ connected w c.
Proof. unfold connected, joined. cbn [CONNECTED]. apply lookup_insert_is_Some'. Qed.

(** X1. Admission has no cap: connecting any number of distinct socket
    ids that are not yet connected raises the number of players by exactly
    that number, whatever [MAX_PLAYERS] is, and leaves the role table as it
    was. *)
Theorem X1_every_connection_is_admitted (w : World) (l : list sid) :
  NoDup l →
  (∀ s, s ∈ l → ¬ connected w s) →
  size (CONNECTED (connect_all w l)) = size (CONNECTED w) + length l ∧
  ROLE_OWNER (connect_all w l) = ROLE_OWNER w.
Proof.
  unfold connect_all. revert w.
  induction l as [|s l IH]; intros w Hnodup Hfresh.
  - cbn. split; [lia|done].
  - apply NoDup_cons in Hnodup as [Hs Hnodup].
    rewrite fmap_cons. cbn [foldl]. rewrite after_connect.
    destruct (IH (joined w s) Hnodup) as [Hsize Hroles].
    { intros c Hc. rewrite connected_joined. intros [->|Hconn]; [done|].
      apply (Hfresh c); [by right | done]. }
    rewrite Hsize, Hroles. split; [|done].
    unfold joined at 1. cbn [CONNECTED length].
    rewrite map_size_insert_None; [lia|].
    apply eq_None_not_Some. apply (Hfresh s). by left.
Qed.

Lemma X1_every_connection_is_admitted_witness :
  size (CONNECTED (connect_all two_players ["C"; "D"; "E"]))
    = size (CONNECTED two_players) + 3 ∧
  ROLE_OWNER (connect_all two_players ["C"; "D"; "E"]) = ROLE_OWNER two_players.
Proof.
  apply (X1_every_connection_is_admitted two_players ["C"; "D"; "E"]).
  - apply (bool_decide_unpack _). by vm_compute.
  - apply Forall_forall. repeat constructor; vm_compute; by intros [? ?].
Defined.

(** X2. The two broadcasts of a connect or a disconnect describe the state
    the handler leaves: [player_count] carries the number of connections
    after the call and [MAX_PLAYERS], and [roles_update], sent second,
    carries the roles as they are after the call. Neither handler raises. *)
Theorem X2_broadcasts_describe_the_new_state (w : World) (c : Call) :
  (∃ s, c = connect s ∨ c = disconnect s) →
  result (handle c w) = Returned tt ∧
  sent (handle c w)
    = [ToAll (player_count (size (CONNECTED (after w c))) MAX_PLAYERS);
       roles_message (after w c)].
Proof.
  unfold after. intros [s [->| ->]]; cbn [handle].
  - by rewrite handle_connect_run.
  - by rewrite handle_disconnect_run.
Qed.

Lemma X2_broadcasts_describe_the_new_state_witness :
  result (handle (disconnect A) hacker_claimed) = Returned tt ∧
  sent (handle (disconnect A) hacker_claimed)
    = [ToAll (player_count 1 2); ToAll (roles_update false false)].
Proof.
  apply (X2_broadcasts_describe_the_new_state hacker_claimed (disconnect A)).
  exists A. by right.
Defined.

(** X3. A connect event for a socket id that is already connected does
    not change the number of players and does not touch the role table,
    but it resets the role recorded in the connection: an owner stays the
    owner while its connection shows no role. *)
Theorem X3_repeated_connect_resets_the_connection
  (w : World) (s : sid) (r : RoleKind) :
  connected w s →
  owns w s r →
  let w' := after w (connect s) in
  size (CONNECTED w') = size (CONNECTED w) ∧
  owns w' s r ∧
  CONNECTED w' !! s = Some {| role := None |}.
Proof.
  intros Hconn Hown w'. subst w'. rewrite after_connect.
  unfold joined, owns. cbn [CONNECTED ROLE_OWNER].
  split; [by apply map_size_insert_Some|].
  split; [done | apply lookup_insert_eq].
Qed.

Lemma X3_repeated_connect_resets_the_connection_witness :
  CONNECTED hacker_claimed !! A = Some {| role := Some hacker |} ∧
  let w' := after hacker_claimed (connect A) in
  size (CONNECTED w') = size (CONNECTED hacker_claimed) ∧
  owns w' A hacker ∧
  CONNECTED w' !! A = Some {| role := None |}.
Proof.
  split; [reflexivity|].
  apply (X3_repeated_connect_resets_the_connection hacker_claimed A hacker).
  - vm_compute. eauto.
  - reflexivity.
Defined.

(** ** Payloads *)

Lemma requested_truthy_not_a_dict data :
  truthy data = true → not_a_dict data → requested data = inl AttributeError.
Proof.
  unfold requested, or_empty_dict. intros -> Hnot. by destruct data.
Qed.

Lemma requested_falsy data : truthy data = false → requested data = inr PyNone.
Proof. unfold requested, or_empty_dict. by intros ->. Qed.

(** X4. A payload that is true and is not a dict (a non-empty string or
    list, a non-zero number, [True]) makes [choose_role] and
    [release_role] raise [AttributeError]: the state is unchanged and
    nothing is sent, not even [choose_role_failed]. *)
Theorem X4_non_dict_payload_raises (w : World) (s : sid) (data : pyval) :
  truthy data = true →
  not_a_dict data →
  handle_choose_role s data w = mkRun (Raised AttributeError) w [] ∧
  handle_release_role s data w = mkRun (Raised AttributeError) w [].
Proof.
  intros Htrue Hnot.
  rewrite handle_choose_role_run, handle_release_role_run.
  by rewrite (requested_truthy_not_a_dict data Htrue Hnot).
Qed.

Lemma X4_non_dict_payload_raises_witness :
  handle_choose_role A (PyStr "hacker") two_players
    = mkRun (Raised AttributeError) two_players [] ∧
  handle_release_role A (PyStr "hacker") two_players
    = mkRun (Raised AttributeError) two_players [].
Proof.
  apply (X4_non_dict_payload_raises two_players A (PyStr "hacker"));
    [reflexivity | exact I].
Defined.

(** X5. A payload that is false, of any type ([None], [False], 0, the
    empty string, list or dict), is read as a request without a role:
    [choose_role] rejects it with waiting_for_players or invalid_role, and
    [release_role] does nothing and sends nothing. Neither raises. *)
Theorem X5_false_payload_names_no_role (w : World) (s : sid) (data : pyval) :
  truthy data = false →
  handle_choose_role s data w =
    mkRun (Returned tt) w
      [ToRequester s (choose_role_failed
         (if bool_decide (size (CONNECTED w) < 2)
          then waiting_for_players else invalid_role))] ∧
  handle_release_role s data w = mkRun (Returned tt) w [].
Proof.
  intros Hfalse. apply requested_falsy in Hfalse. split.
  - by rewrite (choose_invalid_role w s data PyNone Hfalse).
  - by rewrite handle_release_role_run, Hfalse.
Qed.

Lemma X5_false_payload_names_no_role_witness :
  handle_choose_role A (PyInt 0) two_players =
    mkRun (Returned tt) two_players
      [ToRequester A (choose_role_failed invalid_role)] ∧
  handle_release_role A (PyInt 0) two_players = mkRun (Returned tt) two_players [].
Proof.
  apply (X5_false_payload_names_no_role two_players A (PyInt 0)). reflexivity.
Defined.

(** ** Requests from a socket id that is not connected *)

(** X6. When [choose_role] passes every check for a socket id that is not
    a key of [CONNECTED], it raises [KeyError] after the owner table has
    been written: the role is now owned by a socket id that is not
    connected, [CONNECTED] is unchanged and nothing is sent. *)
Theorem X6_choice_of_unconnected_id_is_half_done
  (w : World) (s : sid) (data desired : pyval) (r : RoleKind) :
  requested data = inr desired →
  in_roles desired = Some r →
  ¬ connected w s →
  (2 ≤ size (CONNECTED w))%nat →
  (∀ r', ¬ owns w s r') →
  owner_of (ROLE_OWNER w) r = None →
  let run := handle_choose_role s data w in
  result run = Raised KeyError ∧
  sent run = [] ∧
  CONNECTED (world run) = CONNECTED w ∧
  owns (world run) s r ∧
  ¬ connected (world run) s.
Proof.
  intros Hreq Hrole Habsent Hsize Hnone Hfree run. subst run.
  rewrite handle_choose_role_run, Hreq, Hrole, Hfree.
  rewrite bool_decide_false by (unfold MAX_PLAYERS; lia).
  cbn [owner_truthy andb].
  rewrite bool_decide_false; cycle 1.
  { intros Hother. apply find_other_role_spec in Hother as [r' [_ Hown]].
    by apply (Hnone r'). }
  unfold claim_run, connected in *.
  apply eq_None_not_Some in Habsent. rewrite Habsent. cbn [result sent world CONNECTED].
  repeat split; try done.
  - unfold owns. cbn [ROLE_OWNER]. by rewrite owner_of_set_owner, decide_True.
  - by rewrite Habsent; intros [? ?].
Qed.

Lemma X6_choice_of_unconnected_id_is_half_done_witness :
  let run := handle_choose_role "C" (pick "defender") hacker_claimed in
  result run = Raised KeyError ∧
  sent run = [] ∧
  CONNECTED (world run) = CONNECTED hacker_claimed ∧
  owns (world run) "C" defender ∧
  ¬ connected (world run) "C".
Proof.
  apply (X6_choice_of_unconnected_id_is_half_done
           hacker_claimed "C" (pick "defender") (PyStr "defender") defender).
  - reflexivity.
  - reflexivity.
  - vm_compute. by intros [? ?].
  - vm_compute. lia.
  - intros []; vm_compute; congruence.
  - reflexivity.
Defined.

(** X7. A call of [choose_role] or [release_role] made for a connected
    socket id never raises [KeyError]; when it raises at all it is
    [AttributeError] from the payload, and then the state is unchanged and
    nothing has been sent. *)
Theorem X7_connected_requester_never_half_done (w : World) (c : Call) (e : exn) :
  (∃ s data, connected w s ∧ (c = choose_role s data ∨ c = release_role s data)) →
  result (handle c w) = Raised e →
  e = AttributeError ∧ after w c = w ∧ sent (handle c w) = [].
Proof.
  unfold after, connected.
  intros [s [data [[conn Hconn] [->| ->]]]]; cbn [handle].
  - rewrite handle_choose_role_run. unfold failure, claim_run.
    destruct (requested data) as [e'|desired] eqn:Hreq.
    + unfold requested in Hreq. destruct (or_empty_dict data); try discriminate Hreq;
        injection Hreq as <-; cbn [result world sent]; by intros [= <-].
    + case_bool_decide; [done|].
      destruct (in_roles desired) as [r|]; [|done].
      destruct (_ && _); [done|].
      case_bool_decide; [done|]. by rewrite Hconn.
  - rewrite handle_release_role_run.
    destruct (requested data) as [e'|v] eqn:Hreq.
    + unfold requested in Hreq. destruct (or_empty_dict data); try discriminate Hreq;
        injection Hreq as <-; cbn [result world sent]; by intros [= <-].
    + destruct (in_roles v) as [r|]; [|done].
      destruct (owner_is _ s); [|done]. by rewrite Hconn.
Qed.

Lemma X7_connected_requester_never_half_done_witness :
  AttributeError = AttributeError ∧
  after two_players (choose_role A (PyList [PyNone])) = two_players ∧
  sent (handle (choose_role A (PyList [PyNone])) two_players) = [].
Proof.
  apply (X7_connected_requester_never_half_done
           two_players (choose_role A (PyList [PyNone])) AttributeError).
  - exists A, (PyList [PyNone]). split; [vm_compute; eauto | by left].
  - reflexivity.
Defined.

(** ** Invariants of the states the transport can produce, continued *)

Lemma reachable_by_mono (ok ok' : World → Call → Prop) w :
  (∀ w c, ok w c → ok' w c) → reachable_by ok w → reachable_by ok' w.
Proof.
  intros Himpl. induction 1 as [|w c _ IH Hok].
  - apply reach_initial.
  - apply reach_call; [done | by apply Himpl].
Qed.

Lemma orderly_invariants w :
  reachable_by orderly w → owners_connected w ∧ owners_nonempty w.
Proof.
  intros Hreach. apply delivered_invariants.
  apply (reachable_by_mono orderly); [by intros ? ? [? _] | done].
Qed.

Lemma after_orderly w c :
  orderly w c →
  owners_connected w → owners_nonempty w →
  roles_agree w → roles_agree (after w c).
Proof.
  intros [[Hsid Hlive] Hfresh] Hoc Hne Hagree.
  unfold roles_agree, owns, after in *.
  destruct c as [s|s|s data|s data]; cbn [handle caller] in *.
  - rewrite handle_connect_run. cbn [world joined CONNECTED ROLE_OWNER].
    intros c r. destruct (decide (s = c)) as [<-|Hc].
    + rewrite lookup_insert_eq. split; [done|].
      intros Hown. destruct Hfresh. by apply (Hoc r).
    + rewrite lookup_insert_ne by done. apply Hagree.
  - rewrite handle_disconnect_run. cbn [world disconnected CONNECTED ROLE_OWNER].
    intros c r. rewrite owner_of_dropped.
    destruct (decide (s = c)) as [<-|Hc].
    + rewrite lookup_delete_eq. by case_decide.
    + rewrite lookup_delete_ne by done. rewrite Hagree.
      case_decide as Hs; [|done]. rewrite Hs. split; [congruence | done].
  - rewrite handle_choose_role_run. unfold failure, claim_run.
    destruct (requested data) as [e|desired]; [done|].
    case_bool_decide; [done|].
    destruct (in_roles desired) as [r|]; [|done].
    destruct (_ && _) eqn:Htaken; [done|].
    case_bool_decide as Hother; [done|].
    destruct Hlive as [conn ->]. cbn [world claimed CONNECTED ROLE_OWNER].
    intros c r'. rewrite owner_of_set_owner.
    destruct (decide (s = c)) as [<-|Hc].
    + rewrite lookup_insert_eq. case_decide as Hr.
      * subst r'. done.
      * split; [congruence|]. intros Hown.
        assert (find_other_role (ROLE_OWNER w) s r ≠ None) as Hbad; [|done].
        apply find_other_role_spec. exists r'. split; [congruence|done].
    + rewrite lookup_insert_ne by done. rewrite Hagree.
      case_decide as Hr; [|done]. subst r'. split; [|congruence].
      intros Hown.
      assert (owner_truthy (owner_of (ROLE_OWNER w) r)
              && negb (owner_is (owner_of (ROLE_OWNER w) r) s) = true) as Ht.
      { apply taken_check; [done|]. exists c. split; [done | congruence]. }
      congruence.
  - rewrite handle_release_role_run.
    destruct (requested data) as [e|v]; [done|].
    destruct (in_roles v) as [r|]; [|done].
    unfold owner_is. case_bool_decide as Hown; [|done].
    destruct Hlive as [conn ->]. cbn [world released CONNECTED ROLE_OWNER].
    intros c r'. rewrite owner_of_set_owner.
    destruct (decide (s = c)) as [<-|Hc].
    + rewrite lookup_insert_eq. case_decide as Hr; [done|].
      split; [done|]. intros Hown'.
      apply Hagree in Hown, Hown'. congruence.
    + rewrite lookup_insert_ne by done. rewrite Hagree.
      case_decide as Hr; [|done]. subst r'. split; [congruence | done].
Qed.

(** X8. As long as the transport delivers connect events only for socket
    ids that are not connected, and choose_role and release_role events
    only for connected, non-empty socket ids, the role recorded in a
    connection is exactly the role that the owner table gives it:
    [CONNECTED[c]["role"] == r] if and only if [ROLE_OWNER[r] == c]. *)
Theorem X8_connection_role_matches_owner_table (w : World) :
  reachable_by orderly w → roles_agree w.
Proof.
  intros Hreach. induction Hreach as [|w c Hreach IH Hok].
  - intros c r. unfold owns. cbn [initial CONNECTED ROLE_OWNER].
    rewrite lookup_empty. split; [done|]. by destruct r.
  - destruct (orderly_invariants w Hreach) as [Hoc Hne].
    by apply after_orderly.
Qed.

Lemma orderly_hacker_claimed : reachable_by orderly hacker_claimed.
Proof.
  unfold hacker_claimed, two_players.
  apply reach_call; [apply reach_call; [apply reach_call; [apply reach_initial|]|]|].
  - split; [split; [vm_compute; congruence | exact I]|]. vm_compute. by intros [? ?].
  - split; [split; [vm_compute; congruence | exact I]|]. vm_compute. by intros [? ?].
  - split; [split; [vm_compute; congruence | vm_compute; eauto] | exact I].
Defined.

Lemma X8_connection_role_matches_owner_table_witness :
  reachable_by orderly hacker_claimed ∧ roles_agree hacker_claimed.
Proof.
  split; [exact orderly_hacker_claimed|].
  exact (X8_connection_role_matches_owner_table hacker_claimed orderly_hacker_claimed).
Defined.

Lemma two_keys_size {V} (m : gmap string V) (a b : string) :
  is_Some (m !! a) → is_Some (m !! b) → a ≠ b → (2 ≤ size m)%nat.
Proof.
  intros Ha Hb Hne.
  pose proof (map_size_delete_Some a m Ha) as Hdel.
  assert (size (delete a m) ≠ 0) as Hpos.
  { apply (map_size_ne_0_lookup_2 _ b). by rewrite lookup_delete_ne. }
  lia.
Qed.

(** X9. In every state the transport can produce, both roles are taken
    only when at least two players are connected: the two owners are
    different and both are connected. So [roles_ready] is never due in a
    lobby of fewer than [MAX_PLAYERS] connections. *)
Theorem X9_both_roles_taken_needs_two_players (w : World) :
  reachable_by delivered w →
  all_roles_taken w = true →
  (MAX_PLAYERS ≤ size (CONNECTED w))%nat ∧
  ∃ c1 c2, c1 ≠ c2 ∧ owns w c1 hacker ∧ owns w c2 defender ∧
           connected w c1 ∧ connected w c2.
Proof.
  intros Hreach Hall.
  destruct (delivered_invariants w Hreach) as [Hoc _].
  assert (exclusive (ROLE_OWNER w)) as Hex.
  { apply reachable_exclusive. by apply (reachable_by_mono delivered). }
  apply all_roles_taken_spec in Hall as [c1 [c2 [H1 H2]]].
  assert (c1 ≠ c2) as Hne.
  { intros ->. by pose proof (Hex c2 hacker defender H1 H2). }
  pose proof (Hoc hacker c1 H1) as Hc1. pose proof (Hoc defender c2 H2) as Hc2.
  split; [by apply (two_keys_size _ c1 c2) | by exists c1, c2].
Qed.

(** Both players hold a role. *)
Lemma delivered_both_claimed :
  reachable_by delivered (after hacker_claimed (choose_role B (pick "defender"))).
Proof.
  apply reach_call;
    [apply (reachable_by_mono orderly); [by intros ? ? [? _] | exact orderly_hacker_claimed]|].
  split; [vm_compute; congruence | vm_compute; eauto].
Defined.

Lemma X9_both_roles_taken_needs_two_players_witness :
  let w := after hacker_claimed (choose_role B (pick "defender")) in
  all_roles_taken w = true ∧
  (MAX_PLAYERS ≤ size (CONNECTED w))%nat ∧
  ∃ c1 c2, c1 ≠ c2 ∧ owns w c1 hacker ∧ owns w c2 defender ∧
           connected w c1 ∧ connected w c2.
Proof.
  intros w. split; [reflexivity|].
  apply (X9_both_roles_taken_needs_two_players w delivered_both_claimed).
  reflexivity.
Defined.

(** X10. When no owner is the empty string, the booleans broadcast in
    [roles_update] say exactly which roles have an owner, and the test
    [all_roles_taken] that triggers [roles_ready] holds exactly when both
    booleans are true. *)
Theorem X10_roles_update_tells_who_is_taken (w : World) :
  owners_nonempty w →
  (fst (owners w) = true ↔ ∃ c, owns w c hacker) ∧
  (snd (owners w) = true ↔ ∃ c, owns w c defender) ∧
  all_roles_taken w = fst (owners w) && snd (owners w).
Proof.
  intros Hne. pose proof (Hne hacker) as Hh. pose proof (Hne defender) as Hd.
  unfold owners, owns, all_roles_taken in *. cbn [fst snd owner_of] in *.
  destruct (owner_hacker (ROLE_OWNER w)) as [c1|],
           (owner_defender (ROLE_OWNER w)) as [c2|]; cbn [owner_truthy].
  all: try (assert (String.eqb c1 "" = false) as ->
              by (apply String.eqb_neq; congruence)).
  all: try (assert (String.eqb c2 "" = false) as ->
              by (apply String.eqb_neq; congruence)).
  all: cbn [negb andb]; repeat split; try done; eauto.
  all: try by intros [? ?].
Qed.

Lemma X10_roles_update_tells_who_is_taken_witness :
  (fst (owners hacker_claimed) = true ↔ ∃ c, owns hacker_claimed c hacker) ∧
  (snd (owners hacker_claimed) = true ↔ ∃ c, owns hacker_claimed c defender) ∧
  all_roles_taken hacker_claimed
    = fst (owners hacker_claimed) && snd (owners hacker_claimed).
Proof.
  apply (X10_roles_update_tells_who_is_taken hacker_claimed).
  intros []; vm_compute; congruence.
Defined.

(** ** Taking, releasing and handing over a role *)

(** A sufficient condition for [choose_role] to go through. *)
Lemma choose_succeeds w s data desired r :
  requested data = inr desired →
  in_roles desired = Some r →
  (2 ≤ size (CONNECTED w))%nat →
  connected w s →
  owner_of (ROLE_OWNER w) r = None ∨ owner_of (ROLE_OWNER w) r = Some s →
  (∀ r', r' ≠ r → ¬ owns w s r') →
  handle_choose_role s data w =
    mkRun (Returned tt) (claimed w s r)
      (ToRequester s (choose_role_success r)
       :: roles_message (claimed w s r)
       :: (if all_roles_taken (claimed w s r) then [ToAll roles_ready] else [])).
Proof.
  intros Hreq Hrole Hsize [conn Hconn] Howner Hother.
  rewrite handle_choose_role_run, Hreq, Hrole.
  rewrite bool_decide_false by (unfold MAX_PLAYERS; lia).
  assert (owner_truthy (owner_of (ROLE_OWNER w) r)
          && negb (owner_is (owner_of (ROLE_OWNER w) r) s) = false) as ->.
  { destruct Howner as [-> | ->]; [done|].
    unfold owner_is. rewrite bool_decide_true by done. apply andb_false_r. }
  rewrite bool_decide_false; cycle 1.
  { intros Hsome. apply find_other_role_spec in Hsome as [r' [Hne Hown]].
    by apply (Hother r'). }
  unfold claim_run. by rewrite Hconn.
Qed.

Lemma succeeded_claim w s r l :
  succeeded (mkRun (Returned tt) w (ToRequester s (choose_role_success r) :: l)) s r.
Proof. split; [done | apply list_elem_of_here]. Qed.

Lemma release_succeeds w s data v r :
  requested data = inr v →
  in_roles v = Some r →
  owns w s r →
  connected w s →
  handle_release_role s data w =
    mkRun (Returned tt) (released w s r)
      [ToRequester s (role_released r); roles_message (released w s r)].
Proof.
  intros Hreq Hrole Hown [conn Hconn].
  rewrite handle_release_role_run, Hreq, Hrole.
  unfold owner_is. by rewrite bool_decide_true, Hconn.
Qed.

Lemma set_owner_undo o r v :
  set_owner (set_owner o r v) r (owner_of o r) = o.
Proof. by destruct o, r. Qed.

Lemma size_released w s r :
  connected w s → size (CONNECTED (released w s r)) = size (CONNECTED w).
Proof. intros Hconn. unfold released. cbn [CONNECTED]. by apply map_size_insert_Some. Qed.

Lemma connected_released w s r c : connected w c → connected (released w s r) c.
Proof.
  unfold connected, released. cbn [CONNECTED]. intros Hc.
  apply lookup_insert_is_Some'. by right.
Qed.

(** X11. Taking a free role and releasing it at once is a round trip: when
    [choose_role] succeeds for a connection that showed no role, on a role
    that had no owner, [release_role] with the same payload brings the
    state back to what it was before the choice. *)
Theorem X11_choose_then_release_restores
  (w : World) (s : sid) (data : pyval) (r : RoleKind) :
  succeeded (handle_choose_role s data w) s r →
  CONNECTED w !! s = Some {| role := None |} →
  owner_of (ROLE_OWNER w) r = None →
  let w1 := world (handle_choose_role s data w) in
  handle_release_role s data w1
    = mkRun (Returned tt) w [ToRequester s (role_released r); roles_message w].
Proof.
  intros Hok Hconn Hfree w1. subst w1.
  destruct (succeeded_inv w s data r Hok)
    as [desired [Hreq [Hrole [_ [_ [Hlive Hrun]]]]]].
  rewrite Hrun. cbn [world].
  assert (released (claimed w s r) s r = w) as Hback.
  { unfold released, claimed. cbn [CONNECTED ROLE_OWNER].
    rewrite insert_insert_eq, insert_id by done.
    rewrite <- Hfree at 1. rewrite set_owner_undo. by destruct w. }
  rewrite (release_succeeds (claimed w s r) s data desired r Hreq Hrole), Hback; [done| |].
  - unfold owns, claimed. cbn [ROLE_OWNER]. by rewrite owner_of_set_owner, decide_True.
  - unfold connected, claimed. cbn [CONNECTED]. rewrite lookup_insert_eq. eauto.
Qed.

Lemma X11_choose_then_release_restores_witness :
  let w1 := world (handle_choose_role A (pick "hacker") two_players) in
  handle_release_role A (pick "hacker") w1
    = mkRun (Returned tt) two_players
        [ToRequester A (role_released hacker); roles_message two_players].
Proof.
  apply (X11_choose_then_release_restores two_players A (pick "hacker") hacker).
  - split; [reflexivity|]. vm_compute. apply list_elem_of_here.
  - reflexivity.
  - reflexivity.
Defined.

(** X12. Releasing one's role and taking it again is a round trip too:
    for an owner whose connection shows the role, with at least two
    players connected and no second role in its name, [release_role]
    followed by [choose_role] with the same payload succeeds and brings
    the state back. *)
Theorem X12_release_then_choose_restores
  (w : World) (s : sid) (data desired : pyval) (r : RoleKind) :
  requested data = inr desired →
  in_roles desired = Some r →
  owns w s r →
  CONNECTED w !! s = Some {| role := Some r |} →
  (2 ≤ size (CONNECTED w))%nat →
  (∀ r', r' ≠ r → ¬ owns w s r') →
  let w1 := world (handle_release_role s data w) in
  succeeded (handle_choose_role s data w1) s r ∧
  world (handle_choose_role s data w1) = w.
Proof.
  intros Hreq Hrole Hown Hconn Hsize Hother w1. subst w1.
  assert (connected w s) as Hlive by (unfold connected; rewrite Hconn; eauto).
  rewrite (release_succeeds w s data desired r Hreq Hrole Hown Hlive). cbn [world].
  rewrite (choose_succeeds (released w s r) s data desired r Hreq Hrole).
  - split; [apply succeeded_claim|]. cbn [world].
    unfold claimed, released. cbn [CONNECTED ROLE_OWNER].
    rewrite insert_insert_eq, insert_id by done.
    unfold owns in Hown. rewrite <- Hown at 1. rewrite set_owner_undo. by destruct w.
  - by rewrite size_released.
  - by apply connected_released.
  - left. unfold released. cbn [ROLE_OWNER]. by rewrite owner_of_set_owner, decide_True.
  - intros r' Hne. unfold owns, released. cbn [ROLE_OWNER].
    rewrite owner_of_set_owner, decide_False by done. by apply Hother.
Qed.

Lemma X12_release_then_choose_restores_witness :
  let w1 := world (handle_release_role A (pick "hacker") hacker_claimed) in
  succeeded (handle_choose_role A (pick "hacker") w1) A hacker ∧
  world (handle_choose_role A (pick "hacker") w1) = hacker_claimed.
Proof.
  apply (X12_release_then_choose_restores
           hacker_claimed A (pick "hacker") (PyStr "hacker") hacker).
  - reflexivity.
  - reflexivity.
  - reflexivity.
  - reflexivity.
  - vm_compute. lia.
  - intros [] Hne; [done|]. vm_compute. congruence.
Defined.

(** X13. A player cannot hold both roles and has to release to switch:
    while it owns a role, its request for the other, free role is rejected
    with already_owns_other_role; once it has released its role, the same
    request succeeds and it owns the other role and not the first. *)
Theorem X13_switching_roles_needs_a_release
  (w : World) (s : sid) (data data' desired desired' : pyval) (r r' : RoleKind) :
  requested data = inr desired → in_roles desired = Some r →
  requested data' = inr desired' → in_roles desired' = Some r' →
  r' ≠ r →
  connected w s →
  (2 ≤ size (CONNECTED w))%nat →
  owns w s r →
  owner_of (ROLE_OWNER w) r' = None →
  handle_choose_role s data' w
    = mkRun (Returned tt) w [ToRequester s (choose_role_failed already_owns_other_role)] ∧
  let w1 := world (handle_release_role s data w) in
  let run := handle_choose_role s data' w1 in
  succeeded run s r' ∧ owns (world run) s r' ∧ owner_of (ROLE_OWNER (world run)) r = None.
Proof.
  intros Hreq Hrole Hreq' Hrole' Hne Hlive Hsize Hown Hfree. split.
  - rewrite handle_choose_role_run, Hreq', Hrole', Hfree.
    rewrite bool_decide_false by (unfold MAX_PLAYERS; lia).
    cbn [owner_truthy andb].
    rewrite bool_decide_true; [done|].
    apply find_other_role_spec. exists r. split; [congruence | done].
  - cbv zeta.
    rewrite (release_succeeds w s data desired r Hreq Hrole Hown Hlive). cbn [world].
    rewrite (choose_succeeds (released w s r) s data' desired' r' Hreq' Hrole').
    + split; [apply succeeded_claim|]. cbn [world].
      unfold owns, claimed, released. cbn [ROLE_OWNER].
      rewrite !owner_of_set_owner.
      rewrite decide_True by done. split; [done|].
      rewrite decide_False by done. by rewrite decide_True.
    + by rewrite size_released.
    + by apply connected_released.
    + left. unfold released. cbn [ROLE_OWNER].
      by rewrite owner_of_set_owner, decide_False.
    + intros r'' Hne''. unfold owns, released. cbn [ROLE_OWNER].
      rewrite owner_of_set_owner.
      assert (r = r'') as <- by (destruct r, r', r''; congruence).
      by rewrite decide_True.
Qed.

Lemma X13_switching_roles_needs_a_release_witness :
  handle_choose_role A (pick "defender") hacker_claimed
    = mkRun (Returned tt) hacker_claimed
        [ToRequester A (choose_role_failed already_owns_other_role)] ∧
  let w1 := world (handle_release_role A (pick "hacker") hacker_claimed) in
  let run := handle_choose_role A (pick "defender") w1 in
  succeeded run A defender ∧ owns (world run) A defender ∧
  owner_of (ROLE_OWNER (world run)) hacker = None.
Proof.
  apply (X13_switching_roles_needs_a_release hacker_claimed A
           (pick "hacker") (pick "defender") (PyStr "hacker") (PyStr "defender")
           hacker defender);
    first [reflexivity | done | vm_compute; lia | vm_compute; by eauto].
Defined.

(** X14. A role passes from one player to another only through a release:
    while [s] owns the role, the request of another connected player [t]
    is rejected with role_taken; after [s] has released it, the same
    request of [t], who owns nothing, succeeds and [t] is the owner. *)
Theorem X14_role_is_handed_over_by_release
  (w : World) (s t : sid) (data desired : pyval) (r : RoleKind) :
  requested data = inr desired → in_roles desired = Some r →
  s ≠ "" → t ≠ s →
  connected w s → connected w t →
  (2 ≤ size (CONNECTED w))%nat →
  owns w s r →
  (∀ r', ¬ owns w t r') →
  handle_choose_role t data w
    = mkRun (Returned tt) w [ToRequester t (choose_role_failed role_taken)] ∧
  let w1 := world (handle_release_role s data w) in
  let run := handle_choose_role t data w1 in
  succeeded run t r ∧ owns (world run) t r.
Proof.
  intros Hreq Hrole Hs Hts Hlive Hlive' Hsize Hown Hnone. split.
  - rewrite handle_choose_role_run, Hreq, Hrole.
    rewrite bool_decide_false by (unfold MAX_PLAYERS; lia).
    unfold owns in Hown. rewrite Hown. cbn [owner_truthy].
    assert (String.eqb s "" = false) as -> by by apply String.eqb_neq.
    unfold owner_is. rewrite bool_decide_false by congruence. done.
  - cbv zeta.
    rewrite (release_succeeds w s data desired r Hreq Hrole Hown Hlive). cbn [world].
    rewrite (choose_succeeds (released w s r) t data desired r Hreq Hrole).
    + split; [apply succeeded_claim|]. cbn [world].
      unfold owns, claimed. cbn [ROLE_OWNER].
      by rewrite owner_of_set_owner, decide_True.
    + by rewrite size_released.
    + by apply connected_released.
    + left. unfold released. cbn [ROLE_OWNER].
      by rewrite owner_of_set_owner, decide_True.
    + intros r' Hne. unfold owns, released. cbn [ROLE_OWNER].
      rewrite owner_of_set_owner, decide_False by done. apply Hnone.
Qed.

Lemma X14_role_is_handed_over_by_release_witness :
  handle_choose_role B (pick "hacker") hacker_claimed
    = mkRun (Returned tt) hacker_claimed
        [ToRequester B (choose_role_failed role_taken)] ∧
  let w1 := world (handle_release_role A (pick "hacker") hacker_claimed) in
  let run := handle_choose_role B (pick "hacker") w1 in
  succeeded run B hacker ∧ owns (world run) B hacker.
Proof.
  apply (X14_role_is_handed_over_by_release hacker_claimed A B
           (pick "hacker") (PyStr "hacker") hacker);
    first [reflexivity | done | vm_compute; lia | vm_compute; by eauto
          | intros []; vm_compute; congruence].
Defined.

(** * Properties of the HTTP routes *)

Lemma in_roles_Some v r : in_roles v = Some r → v = PyStr (role_name r).
Proof.
  destruct v as [| | |t| |]; try discriminate. cbn [in_roles].
  destruct (String.eqb_spec t "hacker") as [->|_]; [by intros [= <-]|].
  destruct (String.eqb_spec t "defender") as [->|_]; [by intros [= <-]|].
  discriminate.
Qed.

(** The session that [set_role] leaves when it accepts the role. *)
Lemma set_role_run body token session w :
  set_role body token session w =
  match requested body with
  | inl e => mkRun (Raised e) w []
  | inr role =>
      match in_roles role with
      | None =>
          mkRun (Returned
                   (Jsonify [("ok", PyBool false); ("error", PyStr "invalid role")] 400,
                    session)) w []
      | Some _ =>
          mkRun (Returned
                   (Jsonify [("ok", PyBool true); ("role", role)] 200,
                    <["role" := role]>
                      (if bool_decide (session !! "player_id" = None)
                       then <["player_id" := PyStr token]> session else session)))
            w (if all_roles_taken w then [ToAll roles_ready] else [])
      end
  end.
Proof.
  unfold set_role, requested.
  destruct (py_get (or_empty_dict body) "role") as [e|role]; run_unfold; [done|].
  destruct (in_roles role); [|done].
  run_unfold. by destruct (all_roles_taken w).
Qed.

(** X15. [set_role] answers 400 "invalid role" to every body whose role
    is not one of the two role names, a missing body and a body without
    the key included; the session, the lobby state and the clients are
    left alone. *)
Theorem X15_set_role_rejects_other_roles
  (w : World) (body role : pyval) (token : string) (session : gmap string pyval) :
  requested body = inr role →
  in_roles role = None →
  set_role body token session w =
  mkRun (Returned
           (Jsonify [("ok", PyBool false); ("error", PyStr "invalid role")] 400,
            session)) w [].
Proof. intros Hreq Hrole. by rewrite set_role_run, Hreq, Hrole. Qed.

Lemma X15_set_role_rejects_other_roles_witness :
  set_role PyNone "tok" ∅ two_players =
  mkRun (Returned
           (Jsonify [("ok", PyBool false); ("error", PyStr "invalid role")] 400,
            ∅)) two_players [].
Proof.
  apply (X15_set_role_rejects_other_roles two_players PyNone PyNone "tok" ∅);
    reflexivity.
Defined.

(** X16. Whether [set_role] accepts a role name does not depend on the
    lobby: in every lobby state, whoever owns the role, it answers 200
    with the role, stores the role in the session, makes sure the session
    has a player id, and changes nothing of the lobby. The lobby decides
    one thing only: [roles_ready] is broadcast, and nothing else, exactly
    when both roles are taken at that moment. *)
Theorem X16_set_role_accepts_without_ownership
  (w : World) (body role : pyval) (r : RoleKind) (token : string)
  (session : gmap string pyval) :
  requested body = inr role →
  in_roles role = Some r →
  ∃ session',
    set_role body token session w =
      mkRun (Returned
               (Jsonify [("ok", PyBool true); ("role", PyStr (role_name r))] 200,
                session'))
        w (if all_roles_taken w then [ToAll roles_ready] else []) ∧
    session' !! "role" = Some (PyStr (role_name r)) ∧
    is_Some (session' !! "player_id") ∧
    ∀ key, key ≠ "role" → key ≠ "player_id" → session' !! key = session !! key.
Proof.
  intros Hreq Hrole. rewrite set_role_run, Hreq, Hrole.
  apply in_roles_Some in Hrole as ->.
  eexists. split; [reflexivity|]. split; [apply lookup_insert_eq|]. split.
  - rewrite lookup_insert_ne by done. case_bool_decide as Hpid.
    + rewrite lookup_insert_eq. eauto.
    + destruct (session !! "player_id"); [eauto | done].
  - intros key Hk1 Hk2. rewrite lookup_insert_ne by done.
    case_bool_decide; [by rewrite lookup_insert_ne | done].
Qed.

(** The role is granted in the empty lobby, where nobody owns it. *)
Lemma X16_set_role_accepts_without_ownership_witness :
  ∃ session',
    set_role (pick "hacker") "tok" ∅ initial =
      mkRun (Returned
               (Jsonify [("ok", PyBool true); ("role", PyStr "hacker")] 200,
                session'))
        initial [] ∧
    session' !! "role" = Some (PyStr "hacker") ∧
    is_Some (session' !! "player_id") ∧
    ∀ key, key ≠ "role" → key ≠ "player_id" → session' !! key = (∅ : gmap string pyval) !! key.
Proof.
  apply (X16_set_role_accepts_without_ownership
           initial (pick "hacker") (PyStr "hacker") hacker "tok" ∅); reflexivity.
Defined.

(** X17. After [set_role] has accepted a role, the page of that role is
    rendered for the session and the page of the other role redirects to
    the lobby. *)
Theorem X17_pages_follow_the_session_role
  (w : World) (body : pyval) (token : string) (session session' : gmap string pyval)
  (resp : list (string * pyval)) (r : RoleKind) :
  requested body = inr (PyStr (role_name r)) →
  result (set_role body token session w) = Returned (Jsonify resp 200, session') →
  page_of r session' = Render (template_of r) ∧
  ∀ r', r' ≠ r → page_of r' session' = Redirect "index".
Proof.
  intros Hreq. rewrite set_role_run, Hreq.
  assert (in_roles (PyStr (role_name r)) = Some r) as -> by by destruct r.
  cbn [result]. intros [= _ <-].
  assert (∀ r', page_of r' (<["role":=PyStr (role_name r)]>
            (if bool_decide (session !! "player_id" = None)
             then <["player_id":=PyStr token]> session else session))
          = if decide (r' = r) then Render (template_of r') else Redirect "index")
    as Hpage.
  { intros r'. unfold page_of, hacker_page, defender_page.
    destruct r', r; rewrite lookup_insert_eq; by cbn. }
  split.
  - by rewrite Hpage, decide_True.
  - intros r' Hne. by rewrite Hpage, decide_False.
Qed.

Lemma X17_pages_follow_the_session_role_witness :
  let session' := <["role" := PyStr "defender"]> (<["player_id" := PyStr "tok"]> ∅) in
  defender_page session' = Render "defender.html" ∧
  ∀ r', r' ≠ defender → page_of r' session' = Redirect "index".
Proof.
  intros session'.
  apply (X17_pages_follow_the_session_role two_players (pick "defender") "tok" ∅
           session' [("ok", PyBool true); ("role", PyStr "defender")] defender);
    reflexivity.
Defined.

(** X18. The player id of a session is chosen once: a call of [set_role]
    that returns leaves an existing player id as it is, whatever token the
    generator would have given, and a call that is accepted leaves the
    session with a player id. *)
Theorem X18_player_id_is_chosen_once
  (w : World) (body : pyval) (token : string) (session session' : gmap string pyval)
  (resp : Response) :
  result (set_role body token session w) = Returned (resp, session') →
  (is_Some (session !! "player_id") →
   session' !! "player_id" = session !! "player_id") ∧
  (∀ fields, resp = Jsonify fields 200 →
   session' !! "player_id"
     = Some (default (PyStr token) (session !! "player_id"))).
Proof.
  rewrite set_role_run.
  destruct (requested body) as [e|role]; [done|].
  destruct (in_roles role) as [r|]; cbn [result]; intros [= <- <-].
  - rewrite lookup_insert_ne by done. split.
    + intros [pid Hpid]. by rewrite bool_decide_false by by rewrite Hpid.
    + intros fields _. case_bool_decide as Hpid.
      * by rewrite lookup_insert_eq, Hpid.
      * by destruct (session !! "player_id").
  - split; [done|]. intros fields [=].
Qed.

Lemma X18_player_id_is_chosen_once_witness :
  let session := <["player_id" := PyStr "first"]> (∅ : gmap string pyval) in
  let session' := <["role" := PyStr "hacker"]> session in
  session' !! "player_id" = session !! "player_id".
Proof.
  intros session session'.
  apply (X18_player_id_is_chosen_once two_players (pick "hacker") "second"
           session session'
           (Jsonify [("ok", PyBool true); ("role", PyStr "hacker")] 200)).
  - reflexivity.
  - vm_compute. eauto.
Defined.

(** X19. A JSON body that is true and is not an object (a non-empty array
    or string, a non-zero number, [true]) makes [set_role] raise
    [AttributeError] before it has touched the session: no response is
    built, nothing is broadcast and the lobby is unchanged. *)
Theorem X19_set_role_raises_on_non_object_body
  (w : World) (body : pyval) (token : string) (session : gmap string pyval) :
  truthy body = true →
  not_a_dict body →
  set_role body token session w = mkRun (Raised AttributeError) w [].
Proof.
  intros Htrue Hnot.
  by rewrite set_role_run, (requested_truthy_not_a_dict body Htrue Hnot).
Qed.

Lemma X19_set_role_raises_on_non_object_body_witness :
  set_role (PyList [PyStr "hacker"]) "tok" ∅ two_players
    = mkRun (Raised AttributeError) two_players [].
Proof.
  apply (X19_set_role_raises_on_non_object_body
           two_players (PyList [PyStr "hacker"]) "tok" ∅); [reflexivity | exact I].
Defined.

(** * The gate on the number of players *)

(** X20. While fewer than [MAX_PLAYERS] socket ids are connected, no
    [choose_role] call changes the state or succeeds, whoever sends it and
    whatever the payload: it either answers waiting_for_players or raises
    on an unreadable payload. *)
Theorem X20_no_choice_below_two_players (w : World) (s : sid) (data : pyval) :
  size (CONNECTED w) < MAX_PLAYERS →
  handle_choose_role s data w
    = mkRun (Returned tt) w [ToRequester s (choose_role_failed waiting_for_players)]
  ∨ handle_choose_role s data w = mkRun (Raised AttributeError) w [].
Proof.
  intros Hsize. rewrite handle_choose_role_run.
  destruct (requested data) as [e|desired] eqn:Hreq.
  - right. unfold requested in Hreq.
    destruct (or_empty_dict data); try discriminate Hreq; by injection Hreq as <-.
  - left. by rewrite bool_decide_true.
Qed.

Lemma X20_no_choice_below_two_players_witness :
  handle_choose_role A (pick "hacker") lone_player
    = mkRun (Returned tt) lone_player
        [ToRequester A (choose_role_failed waiting_for_players)]
  ∨ handle_choose_role A (pick "hacker") lone_player
    = mkRun (Raised AttributeError) lone_player [].
Proof.
  apply (X20_no_choice_below_two_players lone_player A (pick "hacker")).
  vm_compute. lia.
Defined.

(** X21. When the owner of a role disconnects, the role is free for the
    others, but only if two players are still connected: with at least
    three connections before, another connected player who owns nothing
    takes the role at once; with exactly two before, the player left
    behind is answered waiting_for_players. *)
Theorem X21_role_after_the_owner_left
  (w : World) (s t : sid) (data desired : pyval) (r : RoleKind) :
  requested data = inr desired → in_roles desired = Some r →
  t ≠ s →
  connected w s → connected w t →
  owns w s r →
  (∀ r', ¬ owns w t r') →
  let w1 := after w (disconnect s) in
  ((3 ≤ size (CONNECTED w))%nat →
   succeeded (handle_choose_role t data w1) t r ∧
   owns (world (handle_choose_role t data w1)) t r) ∧
  (size (CONNECTED w) = 2 →
   handle_choose_role t data w1
     = mkRun (Returned tt) w1 [ToRequester t (choose_role_failed waiting_for_players)]).
Proof.
  intros Hreq Hrole Hts Hlive Hlive' Hown Hnone w1. subst w1.
  unfold after. cbn [handle]. rewrite handle_disconnect_run. cbn [world].
  assert (size (CONNECTED (disconnected w s)) = pred (size (CONNECTED w))) as Hsize.
  { unfold disconnected. cbn [CONNECTED]. by apply map_size_delete_Some. }
  split.
  - intros Hthree.
    rewrite (choose_succeeds (disconnected w s) t data desired r Hreq Hrole).
    + split; [apply succeeded_claim|]. cbn [world].
      unfold owns, claimed. cbn [ROLE_OWNER].
      by rewrite owner_of_set_owner, decide_True.
    + lia.
    + unfold connected, disconnected. cbn [CONNECTED].
      by rewrite lookup_delete_ne.
    + left. unfold disconnected. cbn [ROLE_OWNER].
      by rewrite owner_of_dropped, decide_True.
    + intros r' _. unfold owns, disconnected. cbn [ROLE_OWNER].
      rewrite owner_of_dropped. case_decide; [done | apply Hnone].
  - intros Htwo. rewrite handle_choose_role_run, Hreq.
    by rewrite bool_decide_true by (unfold MAX_PLAYERS; lia).
Qed.

Lemma X21_role_after_the_owner_left_witness :
  let w1 := after hacker_claimed (disconnect A) in
  ((3 ≤ size (CONNECTED hacker_claimed))%nat →
   succeeded (handle_choose_role B (pick "hacker") w1) B hacker ∧
   owns (world (handle_choose_role B (pick "hacker") w1)) B hacker) ∧
  (size (CONNECTED hacker_claimed) = 2 →
   handle_choose_role B (pick "hacker") w1
     = mkRun (Returned tt) w1 [ToRequester B (choose_role_failed waiting_for_players)]).
Proof.
  apply (X21_role_after_the_owner_left hacker_claimed A B
           (pick "hacker") (PyStr "hacker") hacker);
    first [reflexivity | done | vm_compute; by eauto
          | intros []; vm_compute; congruence].
Defined.
